(** * scheduler.py: conflict-free class schedules

    A shallow embedding of [scheduler.py]: the minute clock [Time], the
    block of class time [ClassTime] with its [overlaps] test, and the
    schedule builder [build_schedules] with its helpers
    [get_fitting_classes] and [new_class_time_fits].

    Python's unbounded [int] is [Z], [str] is [string], a [list] read but
    never written is a Rocq [list].  The [for] loops that grow a list with
    [append] are left folds whose accumulator is extended at its end; the
    loops that [return] from inside are folds over an optional early
    result.  The second half of the file runs the same three functions
    over a heap of Python objects, where [append] is a store update, to
    show which objects a call can write. *)

From stdpp Require Import gmap strings list fin_maps.
From stdpp Require Import pretty sorting.

Open Scope Z_scope.

(** ** Time *)

Module Time.

(** [class Time]: the only attribute is [mins]. *)
Record t : Type := Build { mins : Z }.

(** [Time.__init__(hours=0, mins=0)]. *)
Definition make (hours mins : Z) : t := Build (hours * 60 + mins).

(** [Time.__add__]. *)
Definition add (self other : t) : t := make 0 (mins self + mins other).

(** [Time.__mul__]. *)
Definition mul (self : t) (i : Z) : t := make 0 (mins self * i).

(** [Time.__lt__]. *)
Definition lt (self other : t) : bool := mins self <? mins other.

(** [Time.__eq__]. *)
Definition eq (self other : t) : bool := mins self =? mins other.

(** [Time.__le__]: [(self < other) or (self == other)]. *)
Definition le (self other : t) : bool := lt self other || eq self other.

(** [self >= other].  The class defines no [__ge__], so Python falls
    back on the reflected method of the right operand,
    [other.__le__(self)]. *)
Definition ge (self other : t) : bool := le other self.

End Time.

(** ** Day *)

Module Day.
Definition MON : string := "Mon".
Definition TUES : string := "Tues".
Definition WED : string := "Wed".
Definition THUR : string := "Thur".
Definition FRI : string := "Fri".
Definition DAYS : list string := [MON; TUES; WED; THUR; FRI].
End Day.

(** ** ClassTime *)

(** [class ClassTime]: a single block of class time on a day. *)
Record ClassTime : Type := mkClassTime {
  day : string;
  start_time : Time.t;
  end_time : Time.t
}.

(** [ClassTime.overlaps]. *)
Definition overlaps (self other : ClassTime) : bool :=
  let same_day := String.eqb (day self) (day other) in
  let start_in_other :=
    Time.ge (start_time self) (start_time other)
    && Time.le (start_time self) (end_time other) in
  let end_in_other :=
    Time.ge (end_time self) (start_time other)
    && Time.le (end_time self) (end_time other) in
  same_day && (start_in_other || end_in_other).

(** ** UnrealizedClass and Class *)

(** [class UnrealizedClass]: an unrealized class with options for class
    times.  The attribute [name] is [uname] here, because the realized
    class has an attribute of the same name. *)
Record UnrealizedClass : Type := mkUnrealizedClass {
  uname : string;
  time_options : list (list ClassTime)
}.

(** [class Class]: a realized class with set times. *)
Record RealizedClass : Type := mkClass {
  name : string;
  times : list ClassTime
}.

Abbreviation Schedule := (list RealizedClass).

(** ** Loops *)

(** A [for] loop whose body may [return]: the body yields [Some r] when it
    returns [r] and [None] when it falls through to the next element. *)
Fixpoint for_return {A R : Type} (l : list A) (body : A → option R)
  : option R :=
  match l with
  | [] => None
  | x :: l' =>
      match body x with
      | Some r => Some r
      | None => for_return l' body
      end
  end.

(** A [for] loop that threads an accumulator, as [fold_left] with the
    list first. *)
Definition for_each {A S : Type} (l : list A) (init : S)
  (body : S → A → S) : S := fold_left body l init.

(** ** The schedule builder *)

(** [new_class_time_fits]. *)
Definition new_class_time_fits (schedule : Schedule)
  (new_times : list ClassTime) : bool :=
  match
    for_return new_times (λ new_time,
      for_return schedule (λ c,
        for_return (times c) (λ time,
          if overlaps time new_time then Some false else None)))
  with
  | Some r => r
  | None => true
  end.

(** [get_fitting_classes]. *)
Definition get_fitting_classes (schedule : Schedule)
  (new_class : UnrealizedClass) : list RealizedClass :=
  for_each (time_options new_class) [] (λ fitting_classes time_option,
    if new_class_time_fits schedule time_option
    then fitting_classes ++ [mkClass (uname new_class) time_option]
    else fitting_classes).

(** [build_schedules].  [schedule.copy() + [fitting_class]] is a fresh
    list with the elements of [schedule] followed by [fitting_class]. *)
Definition build_schedules (class_options : list UnrealizedClass)
  : list Schedule :=
  for_each class_options [[]] (λ schedules c,
    for_each schedules [] (λ new_schedules schedule,
      let fitting_classes := get_fitting_classes schedule c in
      for_each fitting_classes new_schedules (λ new_schedules fitting_class,
        new_schedules ++ [schedule ++ [fitting_class]]))).

(** [multi_day_same_time] and [multi_times], used to build requests. *)
Definition multi_day_same_time (days : list string)
  (start_times : list Time.t) (duration : Time.t) : list (list ClassTime) :=
  map (λ start_time,
    map (λ d, mkClassTime d start_time (Time.add start_time duration)) days)
    start_times.

Definition multi_times (d : string) (start_times : list Time.t)
  (duration : Time.t) : list (list ClassTime) :=
  map (λ start_time, [mkClassTime d start_time (Time.add start_time duration)])
    start_times.

(** ** Sample data *)

Definition mon_0900_1000 : ClassTime :=
  mkClassTime Day.MON (Time.make 9 0) (Time.make 10 0).
Definition mon_1000_1100 : ClassTime :=
  mkClassTime Day.MON (Time.make 10 0) (Time.make 11 0).
Definition mon_0930_1030 : ClassTime :=
  mkClassTime Day.MON (Time.make 9 30) (Time.make 10 30).
Definition mon_0900_1200 : ClassTime :=
  mkClassTime Day.MON (Time.make 9 0) (Time.make 12 0).
Definition tues_0900_1000 : ClassTime :=
  mkClassTime Day.TUES (Time.make 9 0) (Time.make 10 0).

(** A long block first, then a short block inside it. *)
Definition nested_requests : list UnrealizedClass :=
  [mkUnrealizedClass "Seminar" [[mon_0900_1200]];
   mkUnrealizedClass "Lab" [[mon_1000_1100]]].

Definition nested_schedule : Schedule :=
  [mkClass "Seminar" [mon_0900_1200]; mkClass "Lab" [mon_1000_1100]].

(** One request that lists the same option twice. *)
Definition repeated_requests : list UnrealizedClass :=
  [mkUnrealizedClass "Seminar" [[mon_0900_1000]; [mon_0900_1000]]].

Definition repeated_schedule : Schedule :=
  [mkClass "Seminar" [mon_0900_1000]].

(** Two requests; the first option of the first touches the option of
    the second. *)
Definition touching_requests : list UnrealizedClass :=
  [mkUnrealizedClass "R1" [[mon_0900_1000]; [tues_0900_1000]];
   mkUnrealizedClass "R2" [[mon_1000_1100]]].

Definition touching_schedule : Schedule :=
  [mkClass "R1" [tues_0900_1000]; mkClass "R2" [mon_1000_1100]].

(** Two requests whose options all overlap the other request. *)
Definition blocked_requests : list UnrealizedClass :=
  [mkUnrealizedClass "R1" [[mon_0900_1000]; [mon_1000_1100]];
   mkUnrealizedClass "R2" [[mon_0930_1030]]].

(** A request with an option of no blocks, next to a request with no
    options. *)
Definition online_request : UnrealizedClass :=
  mkUnrealizedClass "Online" [[]].

Definition dead_end_requests : list UnrealizedClass :=
  [online_request; mkUnrealizedClass "Cancelled" []].


(** ** Vocabulary of the properties *)

#[global] Instance Time_eq_dec : EqDecision Time.t.
Proof. solve_decision. Defined.
#[global] Instance ClassTime_eq_dec : EqDecision ClassTime.
Proof. solve_decision. Defined.
#[global] Instance RealizedClass_eq_dec : EqDecision RealizedClass.
Proof. solve_decision. Defined.

(** No block of [c1] overlaps a block of [c2], with the block of [c1] as
    the receiver of [overlaps]. *)
Definition clear_of (c1 c2 : RealizedClass) : Prop :=
  ∀ t1 t2, t1 ∈ times c1 → t2 ∈ times c2 → overlaps t1 t2 = false.

(** The no-conflict property of a schedule: any two selections at
    different positions are clear of each other (hence in both argument
    orders of [overlaps]). *)
Definition conflict_free (schedule : Schedule) : Prop :=
  ∀ (i j : nat) ci cj, i ≠ j →
    schedule !! i = Some ci → schedule !! j = Some cj → clear_of ci cj.

(** What the builder checks: every selection is clear of the later
    ones, the earlier selection being the receiver of [overlaps]. *)
Definition earlier_clear (schedule : Schedule) : Prop :=
  ∀ (i j : nat) ci cj, (i < j)%nat →
    schedule !! i = Some ci → schedule !! j = Some cj → clear_of ci cj.

(** [s] realizes the request [r] with one of its options. *)
Definition selects (r : UnrealizedClass) (s : RealizedClass) : Prop :=
  name s = uname r ∧ times s ∈ time_options r.

(** A combination takes exactly one option per request, in request
    order. *)
Definition combination (class_options : list UnrealizedClass)
  (schedule : Schedule) : Prop :=
  Forall2 selects class_options schedule.

(** Number of times a schedule occurs in a list of schedules. *)
Definition occurrences (schedule : Schedule) (l : list Schedule) : nat :=
  length (filter (λ s, s = schedule) l).

(** Number of times the option taken by the selection [s] is listed in
    the request [r]. *)
Definition option_count (r : UnrealizedClass) (s : RealizedClass) : nat :=
  length (filter (λ o, o = times s) (time_options r)).

(** Product of [option_count] over the requests and the selections made
    for them, position by position. *)
Fixpoint selection_multiplicity (class_options : list UnrealizedClass)
  (schedule : Schedule) : nat :=
  match class_options, schedule with
  | r :: class_options', s :: schedule' =>
      (option_count r s * selection_multiplicity class_options' schedule')%nat
  | _, _ => 1%nat
  end.

(** A request that lists its second option twice, followed by a request
    that lists its only option twice. *)
Definition twice_listed_requests : list UnrealizedClass :=
  [mkUnrealizedClass "Seminar"
     [[tues_0900_1000]; [mon_0900_1000]; [mon_0900_1000]];
   mkUnrealizedClass "Lab" [[mon_1000_1100]; [mon_1000_1100]]].

(** Product of [len(time_options)] over the requests. *)
Definition options_product (class_options : list UnrealizedClass) : nat :=
  foldr (λ c acc, (length (time_options c) * acc)%nat) 1%nat class_options.

(** One stage of the nested expansion, written as a comprehension: the
    extensions of one partial schedule by the options of [c] that fit,
    in option order. *)
Definition extensions (c : UnrealizedClass) (schedule : Schedule)
  : list Schedule :=
  (λ o, schedule ++ [mkClass (uname c) o])
    <$> filter (λ o, new_class_time_fits schedule o = true) (time_options c).

(** ** The builder over a heap of Python objects *)

Module Heap.

Abbreviation loc := positive.

(** The objects the builder meets.  An attribute holding a [str] or an
    [int] holds the value; any other attribute, and every list item, is
    a reference. *)
Inductive obj : Type :=
  | OTime (mins : Z)
  | OClassTime (day : string) (start_time end_time : loc)
  | OUnrealizedClass (name : string) (time_options : loc)
  | OClass (name : string) (times : loc)
  | OList (items : list loc).

Abbreviation heap := (gmap loc obj).

(** A computation on the heap.  [None] stands for a raised exception
    and for a loop that ran out of fuel. *)
Definition M (A : Type) : Type := heap → option (A * heap).

#[global] Instance M_ret : MRet M := λ A a h, Some (a, h).

#[global] Instance M_bind : MBind M := λ A B k m h,
  match m h with
  | Some (a, h') => k a h'
  | None => None
  end.

Definition raise {A : Type} : M A := λ _, None.

Definition read (l : loc) : M obj := λ h,
  match h !! l with
  | Some o => Some (o, h)
  | None => None
  end.

Definition write (l : loc) (o : obj) : M unit := λ h,
  Some ((), <[l := o]> h).

(** A new object gets an address that is not in use. *)
Definition alloc (o : obj) : M loc := λ h,
  let l := fresh (dom h) in Some (l, <[l := o]> h).

(** Attribute reads. *)
Definition get_mins (l : loc) : M Z :=
  o ← read l; match o with OTime m => mret m | _ => raise end.

Definition get_day (l : loc) : M string :=
  o ← read l; match o with OClassTime d _ _ => mret d | _ => raise end.

Definition get_start_time (l : loc) : M loc :=
  o ← read l; match o with OClassTime _ s _ => mret s | _ => raise end.

Definition get_end_time (l : loc) : M loc :=
  o ← read l; match o with OClassTime _ _ e => mret e | _ => raise end.

Definition get_name (l : loc) : M string :=
  o ← read l;
  match o with
  | OUnrealizedClass n _ => mret n
  | OClass n _ => mret n
  | _ => raise
  end.

Definition get_time_options (l : loc) : M loc :=
  o ← read l; match o with OUnrealizedClass _ t => mret t | _ => raise end.

Definition get_times (l : loc) : M loc :=
  o ← read l; match o with OClass _ t => mret t | _ => raise end.

(** List operations: [list(...)] display, [append], [copy], [+]. *)
Definition list_items (l : loc) : M (list loc) :=
  o ← read l; match o with OList xs => mret xs | _ => raise end.

Definition list_new (xs : list loc) : M loc := alloc (OList xs).

Definition list_append (l x : loc) : M unit :=
  xs ← list_items l; write l (OList (xs ++ [x])).

Definition list_copy (l : loc) : M loc :=
  xs ← list_items l; list_new xs.

Definition list_add (l1 l2 : loc) : M loc :=
  xs ← list_items l1; ys ← list_items l2; list_new (xs ++ ys).

(** [for x in l: body].  The iterator keeps the list and an index and
    reads the list again at every step, so it sees items appended while
    the loop runs; [fuel] bounds the number of steps.  [for_in] threads
    the local variables the body assigns; [for_in_return] is the loop
    whose body may [return]. *)
Fixpoint for_in {St : Type} (fuel : nat) (l : loc) (i : nat) (s : St)
  (body : St → loc → M St) : M St :=
  match fuel with
  | O => raise
  | S fuel' =>
      xs ← list_items l;
      match xs !! i with
      | None => mret s
      | Some x => s' ← body s x; for_in fuel' l (S i) s' body
      end
  end.

Fixpoint for_in_return {R : Type} (fuel : nat) (l : loc) (i : nat)
  (body : loc → M (option R)) : M (option R) :=
  match fuel with
  | O => raise
  | S fuel' =>
      xs ← list_items l;
      match xs !! i with
      | None => mret None
      | Some x =>
          r ← body x;
          match r with
          | Some v => mret (Some v)
          | None => for_in_return fuel' l (S i) body
          end
      end
  end.

(** The methods of [Time] that [overlaps] calls. *)
Definition Time_lt (self other : loc) : M bool :=
  x ← get_mins self; y ← get_mins other; mret (x <? y).

Definition Time_eq (self other : loc) : M bool :=
  x ← get_mins self; y ← get_mins other; mret (x =? y).

Definition Time_le (self other : loc) : M bool :=
  b ← Time_lt self other; if b : bool then mret true else Time_eq self other.

Definition Time_ge (self other : loc) : M bool := Time_le other self.

(** [ClassTime.overlaps]; [and] evaluates its right operand only when
    the left one is true. *)
Definition overlaps (self other : loc) : M bool :=
  d ← get_day self; d' ← get_day other;
  let same_day := String.eqb d d' in
  start_in_other ← (
    s ← get_start_time self; s' ← get_start_time other;
    b ← Time_ge s s';
    if b : bool
    then s ← get_start_time self; e' ← get_end_time other; Time_le s e'
    else mret false);
  end_in_other ← (
    e ← get_end_time self; s' ← get_start_time other;
    b ← Time_ge e s';
    if b : bool
    then e ← get_end_time self; e' ← get_end_time other; Time_le e e'
    else mret false);
  mret (same_day && (start_in_other || end_in_other)).

(** [new_class_time_fits]. *)
Definition new_class_time_fits (fuel : nat) (schedule new_times : loc)
  : M bool :=
  r ← for_in_return fuel new_times 0 (λ new_time,
        for_in_return fuel schedule 0 (λ c,
          ts ← get_times c;
          for_in_return fuel ts 0 (λ time,
            b ← overlaps time new_time;
            mret (if b : bool then Some false else None))));
  mret (default true r).

(** [get_fitting_classes].  The new [Class] object refers to the option
    list of the request; the list is not copied. *)
Definition get_fitting_classes (fuel : nat) (schedule new_class : loc)
  : M loc :=
  fitting_classes ← list_new [];
  options ← get_time_options new_class;
  for_in fuel options 0 () (λ _ time_option,
    b ← new_class_time_fits fuel schedule time_option;
    if b : bool
    then
      n ← get_name new_class;
      c ← alloc (OClass n time_option);
      list_append fitting_classes c
    else mret ());;
  mret fitting_classes.

(** [build_schedules].  The variable [schedules] is assigned at the end
    of each round of the outer loop, so it is the state of that loop;
    [new_schedules] and [fitting_classes] are lists on the heap that the
    inner loops append to. *)
Definition build_schedules (fuel : nat) (class_options : loc) : M loc :=
  empty ← list_new [];
  schedules ← list_new [empty];
  for_in fuel class_options 0 schedules (λ schedules c,
    new_schedules ← list_new [];
    for_in fuel schedules 0 () (λ _ schedule,
      fitting_classes ← get_fitting_classes fuel schedule c;
      for_in fuel fitting_classes 0 () (λ _ fitting_class,
        copy ← list_copy schedule;
        single ← list_new [fitting_class];
        sum ← list_add copy single;
        list_append new_schedules sum));;
    mret new_schedules).

(** Reading a value off the heap: the value an address stands for, when
    the objects reachable from it have the expected classes. *)
Definition time_at (h : heap) (l : loc) : option Time.t :=
  match h !! l with
  | Some (OTime m) => Some (Time.Build m)
  | _ => None
  end.

Definition class_time_at (h : heap) (l : loc) : option ClassTime :=
  match h !! l with
  | Some (OClassTime d s e) =>
      s' ← time_at h s; e' ← time_at h e; Some (mkClassTime d s' e')
  | _ => None
  end.

Definition list_at {A : Type} (item_at : heap → loc → option A)
  (h : heap) (l : loc) : option (list A) :=
  match h !! l with
  | Some (OList xs) => mapM (item_at h) xs
  | _ => None
  end.

Definition times_at : heap → loc → option (list ClassTime) :=
  list_at class_time_at.

Definition request_at (h : heap) (l : loc) : option UnrealizedClass :=
  match h !! l with
  | Some (OUnrealizedClass n t) =>
      options ← list_at times_at h t; Some (mkUnrealizedClass n options)
  | _ => None
  end.

Definition class_at (h : heap) (l : loc) : option RealizedClass :=
  match h !! l with
  | Some (OClass n t) => ts ← times_at h t; Some (mkClass n ts)
  | _ => None
  end.

Definition requests_at : heap → loc → option (list UnrealizedClass) :=
  list_at request_at.

Definition schedule_at : heap → loc → option Schedule := list_at class_at.

Definition schedules_at : heap → loc → option (list Schedule) :=
  list_at schedule_at.

End Heap.

(** ** Vocabulary of the heap properties *)

(** A computation that leaves the heap as it found it. *)
Definition readonly {A : Type} (m : Heap.M A) : Prop :=
  ∀ h a h', m h = Some (a, h') → h' = h.

(** A computation that leaves every object of [h0] as it is in [h0]. *)
Definition preserves {A : Type} (h0 : Heap.heap) (m : Heap.M A) : Prop :=
  ∀ h a h', h0 ⊆ h → m h = Some (a, h') → h0 ⊆ h'.

(** [m'] returns whatever [m] returns. *)
Definition below {A : Type} (m m' : Heap.M A) : Prop :=
  ∀ h r, m h = Some r → m' h = Some r.

(** [item_at] reads the same value from any heap that extends the one
    it succeeds on. *)
Definition stable {A : Type} (item_at : Heap.heap → Heap.loc → option A)
  : Prop :=
  ∀ h h' l v, h ⊆ h' → item_at h l = Some v → item_at h' l = Some v.

(** The heap with the objects at the addresses in [X] left out: a value
    that can be read there does not depend on those objects. *)
Definition hide (X : gset Heap.loc) (h : Heap.heap) : Heap.heap :=
  filter (λ p, fst p ∉ X) h.

(** The requests of [touching_requests] laid out on a heap: three
    [Time] objects shared by three [ClassTime] objects, the option
    lists, the two requests and the list of requests at address 14. *)
Definition touching_heap : Heap.heap :=
  list_to_map
    [(1%positive, Heap.OTime 540); (2%positive, Heap.OTime 600);
     (3%positive, Heap.OTime 660);
     (4%positive, Heap.OClassTime "Mon" 1 2);
     (5%positive, Heap.OClassTime "Tues" 1 2);
     (6%positive, Heap.OClassTime "Mon" 2 3);
     (7%positive, Heap.OList [4%positive]);
     (8%positive, Heap.OList [5%positive]);
     (9%positive, Heap.OList [6%positive]);
     (10%positive, Heap.OList [7%positive; 8%positive]);
     (11%positive, Heap.OList [9%positive]);
     (12%positive, Heap.OUnrealizedClass "R1" 10);
     (13%positive, Heap.OUnrealizedClass "R2" 11);
     (14%positive, Heap.OList [12%positive; 13%positive])].

(** ** Vocabulary of the further properties *)

(** A block whose start is not after its end. *)
Definition well_formed (t : ClassTime) : Prop :=
  Time.mins (start_time t) ≤ Time.mins (end_time t).

(** [a] starts before [b] and ends after it. *)
Definition strictly_contains (a b : ClassTime) : Prop :=
  Time.mins (start_time a) < Time.mins (start_time b) ∧
  Time.mins (end_time b) < Time.mins (end_time a).

(** The blocks of the options of a request. *)
Definition request_blocks (c : UnrealizedClass) : list ClassTime :=
  mjoin (time_options c).

(** ** Printing *)

(** [format(n, "02")] for an [int] [n]: its decimal digits, with the
    sign if negative, padded with a zero to two characters.  Python pads
    between the sign and the digits; with a sign the text already has
    two characters, so only a single digit is ever padded.  [pretty] is
    the decimal notation of an integer. *)
Definition format_02 (n : Z) : string :=
  let s := pretty n in
  if (String.length s <? 2)%nat then "0" +:+ s else s.

(** [Time.__str__]; [//] and [%] round towards minus infinity, as
    [Z.div] and [Z.modulo] do. *)
Definition Time_str (self : Time.t) : string :=
  let hours := Time.mins self `div` 60 in
  let mins := Time.mins self `mod` 60 in
  format_02 hours +:+ ":" +:+ format_02 mins.

(** [ClassTime.__str__]. *)
Definition ClassTime_str (self : ClassTime) : string :=
  day self +:+ " " +:+ Time_str (start_time self) +:+ "-"
    +:+ Time_str (end_time self).

Definition newline : string := String (Ascii.ascii_of_nat 10) "".
Definition tab : string := String (Ascii.ascii_of_nat 9) "".

(** [UnrealizedClass.__str__]. *)
Definition UnrealizedClass_str (self : UnrealizedClass) : string :=
  let times :=
    String.concat newline
      ((λ t, String.concat ", " (ClassTime_str <$> t)) <$> time_options self)
  in
  uname self +:+ newline +:+ times +:+ newline.

(** The decimal digit of a number below ten. *)
Definition digit (n : Z) : Ascii.ascii := pretty_N_char (Z.to_N n).

(** A number below 100 in two decimal digits. *)
Definition two_digits (n : Z) : string :=
  String (digit (n `div` 10)) (String (digit (n `mod` 10)) "").

(** ** Requests of the sample program *)

Definition cse_4502 : UnrealizedClass :=
  mkUnrealizedClass "CSE 4502: Big Data Analytics"
    (multi_day_same_time [Day.TUES; Day.THUR]
       [Time.make 11 0; Time.make 12 30] (Time.make 1 15)).

Definition cse_4705 : UnrealizedClass :=
  mkUnrealizedClass "CSE 4705: Artificial Intelligence"
    (multi_day_same_time [Day.TUES; Day.THUR]
       [Time.make 9 30; Time.make 14 0] (Time.make 1 15)).

Definition cse_3000 : UnrealizedClass :=
  mkUnrealizedClass "CSE 3000: Contemporary Issues"
    (multi_times Day.MON
       [Time.make 10 10; Time.make 11 15; Time.make 12 20; Time.make 13 25]
       (Time.make 0 50)
     ++ multi_times Day.WED [Time.make 10 10; Time.make 11 15]
          (Time.make 0 50)).

(** ** [print_schedule] *)

(** [list.sort(key=...)] of the Python library, for keys that are
    [Time] objects: the sort is stable and compares keys with [<] only.
    It is given here as an insertion sort that places an item before the
    first item whose key is not less than its own. *)
Fixpoint insert_by_key {A : Type} (key : A → Time.t) (x : A) (l : list A)
  : list A :=
  match l with
  | [] => [x]
  | y :: l' =>
      if Time.lt (key y) (key x)
      then y :: insert_by_key key x l'
      else x :: y :: l'
  end.

Fixpoint sort_by_key {A : Type} (key : A → Time.t) (l : list A) : list A :=
  match l with
  | [] => []
  | x :: l' => insert_by_key key x (sort_by_key key l')
  end.

(** [[(c, t) for c in schedule for t in c.times if t.day == day]]. *)
Definition day_pairs (schedule : Schedule) (d : string)
  : list (RealizedClass * ClassTime) :=
  c ← schedule; t ← times c;
  if String.eqb (day t) d then [(c, t)] else [].

(** The list [classes] of [print_schedule] for one day, after the
    sort. *)
Definition classes_on (schedule : Schedule) (d : string)
  : list (RealizedClass * ClassTime) :=
  sort_by_key (λ x, start_time (snd x)) (day_pairs schedule d).

(** What [print(str(t), "\t", c.name)] writes before the line end: the
    arguments separated by single spaces. *)
Definition print_line (c : RealizedClass) (t : ClassTime) : string :=
  ClassTime_str t +:+ " " +:+ tab +:+ " " +:+ name c.

(** [print_schedule], as the list of the texts written by its calls of
    [print], each of which is followed by a line end on the output. *)
Definition print_schedule (schedule : Schedule) : list string :=
  d ← Day.DAYS;
  ((λ x, print_line (fst x) (snd x)) <$> classes_on schedule d) ++ [""].

(** All the blocks of a schedule. *)
Definition schedule_blocks (schedule : Schedule) : list ClassTime :=
  schedule ≫= times.

(** The sample heap with one more object, an empty list at address 15,
    to serve as an empty schedule. *)
Definition touching_heap_empty_schedule : Heap.heap :=
  <[15%positive := Heap.OList []]> touching_heap.

(** ** Loop lemmas *)

Section loops.
Context {A B R : Type}.

Lemma for_return_None (l : list A) (body : A → option R) :
  for_return l body = None ↔ ∀ x, x ∈ l → body x = None.
Proof.
  induction l as [|x l IH]; simpl.
  - split; [intros _ x Hx; inv Hx | done].
  - destruct (body x) eqn:Hx.
    + split; [done|]. intros H. rewrite <- Hx. apply H. left.
    + rewrite IH. split.
      * intros H y Hy. inv Hy; auto.
      * intros H y Hy. apply H. by right.
Qed.

Lemma for_return_Some (l : list A) (body : A → option R) r :
  for_return l body = Some r → ∃ x, x ∈ l ∧ body x = Some r.
Proof.
  induction l as [|x l IH]; simpl; [done|].
  destruct (body x) eqn:Hx.
  - intros [= <-]. exists x. split; [left | done].
  - intros (y & Hy & Hr)%IH. exists y. split; [by right | done].
Qed.

Lemma for_each_ext (l : list A) (init : B) (body body' : B → A → B) :
  (∀ s x, body s x = body' s x) →
  for_each l init body = for_each l init body'.
Proof.
  intros Hext. unfold for_each. revert init.
  induction l as [|x l IH]; intros init; simpl; [done|].
  by rewrite Hext, IH.
Qed.

(** A loop that only appends to its accumulator is a bind. *)
Lemma for_each_append (l : list A) (init : list B) (f : A → list B) :
  for_each l init (λ acc x, acc ++ f x) = init ++ (l ≫= f).
Proof.
  unfold for_each. revert init.
  induction l as [|x l IH]; intros init; simpl.
  - by rewrite app_nil_r.
  - rewrite IH. csimpl. by rewrite (assoc_L (++)).
Qed.

Lemma for_each_snoc (l : list A) (x : A) (init : B) (body : B → A → B) :
  for_each (l ++ [x]) init body = body (for_each l init body) x.
Proof. unfold for_each. by rewrite fold_left_app. Qed.

End loops.

(** ** The helpers of the builder *)

(** [new_class_time_fits] answers [True] exactly when no block already
    in the schedule overlaps a new block, the scheduled block being the
    receiver of [overlaps]. *)
Lemma new_class_time_fits_true (schedule : Schedule)
  (new_times : list ClassTime) :
  new_class_time_fits schedule new_times = true ↔
  ∀ c time new_time, c ∈ schedule → time ∈ times c →
    new_time ∈ new_times → overlaps time new_time = false.
Proof.
  unfold new_class_time_fits.
  destruct (for_return new_times _) as [r|] eqn:Hloop.
  - apply for_return_Some in Hloop as (new_time & Hnew & Hloop).
    apply for_return_Some in Hloop as (c & Hc & Hloop).
    apply for_return_Some in Hloop as (time & Htime & Hloop).
    destruct (overlaps time new_time) eqn:Hov; [|done].
    injection Hloop as <-. split; [done|].
    intros H. rewrite (H c time new_time) in Hov; done.
  - split; [intros _|done].
    intros c time new_time Hc Htime Hnew.
    rewrite for_return_None in Hloop. specialize (Hloop _ Hnew).
    rewrite for_return_None in Hloop. specialize (Hloop _ Hc).
    rewrite for_return_None in Hloop. specialize (Hloop _ Htime).
    simpl in Hloop. by destruct (overlaps time new_time).
Qed.

Lemma new_class_time_fits_clear (schedule : Schedule) (s : RealizedClass) :
  new_class_time_fits schedule (times s) = true ↔
  ∀ c, c ∈ schedule → clear_of c s.
Proof.
  rewrite new_class_time_fits_true. unfold clear_of. naive_solver.
Qed.

(** [get_fitting_classes] keeps the options that fit, in option order. *)
Lemma get_fitting_classes_filter (schedule : Schedule)
  (new_class : UnrealizedClass) :
  get_fitting_classes schedule new_class =
  mkClass (uname new_class)
    <$> filter (λ o, new_class_time_fits schedule o = true)
          (time_options new_class).
Proof.
  unfold get_fitting_classes.
  rewrite (for_each_ext _ _ _
    (λ acc o, acc ++ (if new_class_time_fits schedule o
                      then [mkClass (uname new_class) o] else []))).
  2:{ intros acc o. destruct (new_class_time_fits schedule o); [done|].
      by rewrite app_nil_r. }
  rewrite for_each_append. simpl.
  induction (time_options new_class) as [|o l IH]; [done|].
  csimpl. rewrite IH, filter_cons.
  destruct (new_class_time_fits schedule o); by case_decide.
Qed.

(** One iteration of the outer loop of [build_schedules]. *)
Lemma build_schedules_snoc (class_options : list UnrealizedClass)
  (c : UnrealizedClass) :
  build_schedules (class_options ++ [c]) =
  build_schedules class_options ≫= extensions c.
Proof.
  unfold build_schedules at 1. rewrite for_each_snoc.
  fold (build_schedules class_options).
  rewrite (for_each_ext _ _ _ (λ acc schedule, acc ++ extensions c schedule)).
  - by rewrite for_each_append.
  - intros acc schedule. simpl.
    rewrite (for_each_append _ _ (λ fc, [schedule ++ [fc]])).
    f_equal. rewrite get_fitting_classes_filter. unfold extensions.
    induction (filter _ (time_options c)) as [|o l IH]; [done|].
    csimpl. by rewrite IH.
Qed.

Lemma build_schedules_nil : build_schedules [] = [[]].
Proof. reflexivity. Qed.

Lemma elem_of_extensions (c : UnrealizedClass) (p schedule : Schedule) :
  schedule ∈ extensions c p ↔
  ∃ o, schedule = p ++ [mkClass (uname c) o] ∧ o ∈ time_options c ∧
       new_class_time_fits p o = true.
Proof.
  unfold extensions. rewrite list_elem_of_fmap. split.
  - intros (o & -> & [Hfit Ho]%list_elem_of_filter). eauto.
  - intros (o & -> & Ho & Hfit). exists o. split; [done|].
    by apply list_elem_of_filter.
Qed.

(** ** Which schedules are returned *)

Lemma earlier_clear_nil : earlier_clear [].
Proof. intros i j ci cj _ Hi. by rewrite lookup_nil in Hi. Qed.

Lemma earlier_clear_snoc (p : Schedule) (s : RealizedClass) :
  earlier_clear (p ++ [s]) ↔
  earlier_clear p ∧ ∀ c, c ∈ p → clear_of c s.
Proof.
  split.
  - intros H. split.
    + intros i j ci cj Hij Hi Hj.
      apply (H i j); [done| |]; by apply lookup_app_l_Some.
    + intros c [i Hi]%list_elem_of_lookup.
      apply (H i (length p)).
      * by apply lookup_lt_Some in Hi.
      * by apply lookup_app_l_Some.
      * by rewrite list_lookup_middle.
  - intros [Hp Hs] i j ci cj Hij Hi Hj.
    apply lookup_snoc_Some in Hj as [[Hlt Hj]| [-> <-]].
    + apply lookup_snoc_Some in Hi as [[_ Hi]| [-> _]]; [|lia].
      by apply (Hp i j).
    + apply lookup_snoc_Some in Hi as [[_ Hi]| [-> _]]; [|lia].
      apply Hs. by apply list_elem_of_lookup_2 in Hi.
Qed.

Lemma conflict_free_earlier_clear (schedule : Schedule) :
  conflict_free schedule → earlier_clear schedule.
Proof.
  intros H i j ci cj Hij. apply H. lia.
Qed.

(** The returned schedules are exactly the combinations in which every
    selection is clear of the later ones. *)
Lemma elem_of_build_schedules (class_options : list UnrealizedClass)
  (schedule : Schedule) :
  schedule ∈ build_schedules class_options ↔
  combination class_options schedule ∧ earlier_clear schedule.
Proof.
  revert schedule.
  induction class_options as [|c cs IH] using rev_ind; intros schedule.
  - rewrite build_schedules_nil, list_elem_of_singleton. unfold combination.
    split.
    + intros ->. split; [constructor | apply earlier_clear_nil].
    + by intros [->%Forall2_nil_inv_l _].
  - rewrite build_schedules_snoc, list_elem_of_bind. split.
    + intros (p & (o & -> & Ho & Hfit)%elem_of_extensions & Hp).
      apply IH in Hp as [Hcomb Hclear]. split.
      * apply Forall2_app; [done|]. by repeat constructor.
      * apply earlier_clear_snoc. split; [done|].
        by apply (new_class_time_fits_clear p (mkClass (uname c) o)).
    + intros [Hcomb Hclear].
      apply Forall2_app_inv_l in Hcomb as (p & k & Hp & Hk & ->).
      inv Hk. match goal with H : Forall2 _ [] _ |- _ => inv H end.
      match goal with H : selects c _ |- _ => destruct H as [Hname Hopt] end.
      apply earlier_clear_snoc in Hclear as [Hclear Hfit].
      exists p. split; [|by apply IH].
      apply elem_of_extensions. exists (times y). split_and!; [|done|].
      * destruct y; simpl in *; by subst.
      * by apply new_class_time_fits_clear.
Qed.

Lemma extensions_no_options (c : UnrealizedClass) (p : Schedule) :
  time_options c = [] → extensions c p = [].
Proof. unfold extensions. by intros ->. Qed.

Lemma bind_all_nil {A B : Type} (f : A → list B) (l : list A) :
  (∀ x, f x = []) → l ≫= f = [].
Proof. intros Hf. induction l as [|x l IH]; csimpl; [done|]. by rewrite Hf, IH. Qed.

Lemma length_bind_le {A B : Type} (f : A → list B) (l : list A) (k : nat) :
  (∀ x, (length (f x) ≤ k)%nat) → (length (l ≫= f) ≤ length l * k)%nat.
Proof.
  intros Hf. induction l as [|x l IH]; csimpl; [lia|].
  rewrite length_app. specialize (Hf x). lia.
Qed.

Lemma options_product_snoc (class_options : list UnrealizedClass)
  (c : UnrealizedClass) :
  options_product (class_options ++ [c]) =
  (options_product class_options * length (time_options c))%nat.
Proof.
  unfold options_product.
  induction class_options as [|c' cs IH]; simpl; [lia|].
  rewrite IH. lia.
Qed.

Lemma length_extensions (c : UnrealizedClass) (p : Schedule) :
  (length (extensions c p) ≤ length (time_options c))%nat.
Proof. unfold extensions. rewrite length_fmap. apply length_filter. Qed.

Lemma NoDup_extensions (c : UnrealizedClass) (p : Schedule) :
  NoDup (time_options c) → NoDup (extensions c p).
Proof.
  intros Hnd. unfold extensions. apply NoDup_fmap_2_strong.
  - intros o1 o2 _ _ Heq. apply app_inv_head in Heq. by injection Heq.
  - by apply NoDup_filter.
Qed.

(** Without a repeated option in any request, no schedule is returned
    twice. *)
Lemma NoDup_build_schedules (class_options : list UnrealizedClass) :
  (∀ c, c ∈ class_options → NoDup (time_options c)) →
  NoDup (build_schedules class_options).
Proof.
  induction class_options as [|c cs IH] using rev_ind; intros Hnd.
  - rewrite build_schedules_nil. apply NoDup_singleton.
  - rewrite build_schedules_snoc. apply NoDup_bind.
    + intros p1 p2 s _ _ (o1 & -> & _)%elem_of_extensions
        (o2 & Heq & _)%elem_of_extensions.
      by apply app_inj_tail in Heq as [-> _].
    + intros p _. apply NoDup_extensions, Hnd, elem_of_app. right. left.
    + apply IH. intros c' Hc'. apply Hnd, elem_of_app. by left.
Qed.

Lemma occurrences_NoDup (schedule : Schedule) (l : list Schedule) :
  NoDup l → schedule ∈ l → occurrences schedule l = 1%nat.
Proof.
  unfold occurrences. induction 1 as [|s l Hs Hnd IH]; [by inversion 1|].
  rewrite filter_cons. intros Hin. case_decide as Heq.
  - subst s. simpl. f_equal.
    destruct (filter _ l) as [|s' l'] eqn:Hf; [done|].
    assert (s' ∈ filter (λ s, s = schedule) l) as Hs' by (rewrite Hf; left).
    apply list_elem_of_filter in Hs' as [-> Hs']. done.
  - apply IH. by inv Hin.
Qed.

(** ** The overlap test *)

Lemma Time_le_spec (a b : Time.t) :
  Time.le a b = true ↔ Time.mins a ≤ Time.mins b.
Proof.
  unfold Time.le, Time.lt, Time.eq.
  rewrite orb_true_iff, Z.ltb_lt, Z.eqb_eq. lia.
Qed.

Lemma Time_ge_spec (a b : Time.t) :
  Time.ge a b = true ↔ Time.mins b ≤ Time.mins a.
Proof. unfold Time.ge. apply Time_le_spec. Qed.

(** [overlaps] tests whether an end point of the receiver lies in the
    closed range of the argument. *)
Lemma overlaps_true (self other : ClassTime) :
  overlaps self other = true ↔
  day self = day other ∧
  (Time.mins (start_time other) ≤ Time.mins (start_time self)
     ≤ Time.mins (end_time other) ∨
   Time.mins (start_time other) ≤ Time.mins (end_time self)
     ≤ Time.mins (end_time other)).
Proof.
  unfold overlaps. cbv zeta.
  rewrite andb_true_iff, orb_true_iff, !andb_true_iff, String.eqb_eq.
  rewrite !Time_ge_spec, !Time_le_spec. tauto.
Qed.

(** On blocks with [start_time <= end_time], one of the two argument
    orders reports an overlap exactly when the closed ranges meet. *)
Lemma overlaps_either_order (a b : ClassTime) :
  Time.mins (start_time a) ≤ Time.mins (end_time a) →
  Time.mins (start_time b) ≤ Time.mins (end_time b) →
  overlaps a b = true ∨ overlaps b a = true ↔
  day a = day b ∧
  Time.mins (start_time a) ≤ Time.mins (end_time b) ∧
  Time.mins (start_time b) ≤ Time.mins (end_time a).
Proof.
  intros Ha Hb. rewrite !overlaps_true. split.
  - intros [[Hd H]|[Hd H]]; (split; [done|lia]).
  - intros (Hd & H1 & H2).
    destruct (Z_le_gt_dec (Time.mins (start_time b))
                (Time.mins (start_time a))).
    + left. split; [done|lia].
    + right. split; [done|lia].
Qed.

(** The two argument orders disagree only when the receiver strictly
    contains the argument. *)
Lemma overlaps_one_order_only (a b : ClassTime) :
  Time.mins (start_time a) ≤ Time.mins (end_time a) →
  Time.mins (start_time b) ≤ Time.mins (end_time b) →
  overlaps a b = false → overlaps b a = true →
  Time.mins (start_time a) < Time.mins (start_time b) ∧
  Time.mins (end_time b) < Time.mins (end_time a).
Proof.
  intros Ha Hb Hab Hba. apply overlaps_true in Hba as [Hd Hba].
  apply not_true_iff_false in Hab. rewrite overlaps_true in Hab.
  split.
  - destruct (Z_lt_ge_dec (Time.mins (start_time a))
                (Time.mins (start_time b))); [done|].
    exfalso. apply Hab. split; [done|lia].
  - destruct (Z_lt_ge_dec (Time.mins (end_time b))
                (Time.mins (end_time a))); [done|].
    exfalso. apply Hab. split; [done|lia].
Qed.

(** Overlap reflexivity, for a block with [start_time <= end_time]. *)
Lemma overlaps_refl (a : ClassTime) :
  Time.mins (start_time a) ≤ Time.mins (end_time a) → overlaps a a = true.
Proof. intros Ha. apply overlaps_true. split; [done|lia]. Qed.

(** Blocks on different days never overlap. *)
Lemma overlaps_other_day (a b : ClassTime) :
  day a ≠ day b → overlaps a b = false.
Proof.
  intros Hd. apply not_true_iff_false. rewrite overlaps_true. tauto.
Qed.

(** ** Properties of [overlaps] and [build_schedules] *)

(** The examples of the builder's contract: both options of the first
    request overlap the second request, so nothing is returned; and an
    option that only touches is excluded, which leaves one schedule. *)
Example build_schedules_blocked : build_schedules blocked_requests = [].
Proof. reflexivity. Qed.

Example build_schedules_touching :
  build_schedules touching_requests = [touching_schedule].
Proof. reflexivity. Qed.

Lemma build_schedules_earlier_clear (class_options : list UnrealizedClass)
  (schedule : Schedule) :
  schedule ∈ build_schedules class_options → earlier_clear schedule.
Proof. by intros [_ H]%elem_of_build_schedules. Qed.

Lemma build_schedules_combination (class_options : list UnrealizedClass)
  (schedule : Schedule) :
  schedule ∈ build_schedules class_options →
  combination class_options schedule.
Proof. by intros [H _]%elem_of_build_schedules. Qed.

(** C1 (as the code behaves).  The no-conflict invariant fails for a
    block placed inside an earlier, longer block: [build_schedules]
    returns the schedule with both classes, and [overlaps] asked from the
    later block reports the conflict. *)
Theorem build_schedules_keeps_nested_conflict :
  build_schedules nested_requests = [nested_schedule] ∧
  nested_schedule !! 0%nat = Some (mkClass "Seminar" [mon_0900_1200]) ∧
  nested_schedule !! 1%nat = Some (mkClass "Lab" [mon_1000_1100]) ∧
  overlaps mon_0900_1200 mon_1000_1100 = false ∧
  overlaps mon_1000_1100 mon_0900_1200 = true ∧
  ¬ conflict_free nested_schedule.
Proof.
  split_and!; try reflexivity.
  intros H.
  specialize (H 1%nat 0%nat _ _ ltac:(done) eq_refl eq_refl
                mon_1000_1100 mon_0900_1200).
  simpl in H. rewrite !list_elem_of_singleton in H.
  by specialize (H eq_refl eq_refl).
Qed.

(** C2 (as the code behaves).  [overlaps] is not symmetric: on the same
    day, a block that strictly contains the other does not see the
    overlap, while the inner block does. *)
Theorem overlaps_not_symmetric :
  day mon_0900_1200 = day mon_1000_1100 ∧
  Time.mins (start_time mon_0900_1200) ≤ Time.mins (end_time mon_0900_1200) ∧
  Time.mins (start_time mon_1000_1100) ≤ Time.mins (end_time mon_1000_1100) ∧
  overlaps mon_0900_1200 mon_1000_1100 = false ∧
  overlaps mon_1000_1100 mon_0900_1200 = true.
Proof. by split_and!. Qed.

(** C4.  Blocks that touch at an end point overlap: when [a] ends at
    the minute at which [b] starts, on the same day, [overlaps] answers
    [true] for [a] against [b] if [b] does not end before it starts, and
    for [b] against [a] if [a] does not end before it starts.  The case
    of Mon 09:00-10:00 and Mon 10:00-11:00 follows below. *)
Theorem touching_blocks_overlap (a b : ClassTime) :
  day a = day b →
  Time.mins (end_time a) = Time.mins (start_time b) →
  (Time.mins (start_time b) ≤ Time.mins (end_time b) →
   overlaps a b = true) ∧
  (Time.mins (start_time a) ≤ Time.mins (end_time a) →
   overlaps b a = true).
Proof.
  intros Hday Htouch. split; intros Hwf; apply overlaps_true.
  - split; [done|]. right. lia.
  - split; [done|]. left. lia.
Qed.

Lemma touching_blocks_overlap_witness :
  overlaps (mkClassTime Day.MON (Time.make 9 0) (Time.make 10 0))
           (mkClassTime Day.MON (Time.make 10 0) (Time.make 11 0)) = true ∧
  overlaps (mkClassTime Day.MON (Time.make 10 0) (Time.make 11 0))
           (mkClassTime Day.MON (Time.make 9 0) (Time.make 10 0)) = true.
Proof.
  destruct (touching_blocks_overlap
              (mkClassTime Day.MON (Time.make 9 0) (Time.make 10 0))
              (mkClassTime Day.MON (Time.make 10 0) (Time.make 11 0)))
    as [Hab Hba]; [reflexivity | reflexivity |].
  split; [apply Hab | apply Hba]; vm_compute; discriminate.
Defined.

(** C5.  With no requests, [build_schedules] returns exactly one
    schedule, and it has no selections. *)
Theorem build_schedules_no_requests :
  build_schedules [] = [[]] ∧
  length (build_schedules []) = 1%nat ∧
  ∀ schedule, schedule ∈ build_schedules [] → length schedule = 0%nat.
Proof.
  split_and!; [reflexivity..|].
  intros schedule Hin. rewrite build_schedules_nil in Hin.
  by apply list_elem_of_singleton in Hin as ->.
Qed.

(** C6.  If some request has no options, [build_schedules] returns the
    empty list. *)
Theorem build_schedules_request_without_options
  (class_options : list UnrealizedClass) (c : UnrealizedClass) :
  c ∈ class_options → time_options c = [] →
  build_schedules class_options = [].
Proof.
  intros (pre & post & ->)%list_elem_of_split Hc.
  induction post as [|c' post IH] using rev_ind.
  - rewrite build_schedules_snoc. apply bind_all_nil.
    intros p. by apply extensions_no_options.
  - replace (pre ++ c :: post ++ [c']) with ((pre ++ c :: post) ++ [c'])
      by (by rewrite <- app_assoc).
    by rewrite build_schedules_snoc, IH.
Qed.

Lemma build_schedules_request_without_options_witness :
  build_schedules
    [mkUnrealizedClass "Cancelled" [];
     mkUnrealizedClass "Lab" [[mon_1000_1100]]] = [] ∧
  build_schedules
    [mkUnrealizedClass "Lab" [[mon_1000_1100]];
     mkUnrealizedClass "Cancelled" []] = [].
Proof.
  split.
  - apply (build_schedules_request_without_options _
             (mkUnrealizedClass "Cancelled" [])); [left | reflexivity].
  - apply (build_schedules_request_without_options _
             (mkUnrealizedClass "Cancelled" [])); [right; left | reflexivity].
Defined.

(** C7.  The number of schedules returned is at most the product of the
    numbers of options of the requests. *)
Theorem build_schedules_cartesian_bound
  (class_options : list UnrealizedClass) :
  (length (build_schedules class_options) ≤ options_product class_options)%nat.
Proof.
  induction class_options as [|c cs IH] using rev_ind; [by simpl|].
  rewrite build_schedules_snoc, options_product_snoc.
  etrans; [apply (length_bind_le _ _ (length (time_options c)))|].
  - intros p. apply length_extensions.
  - by apply Nat.mul_le_mono_r.
Qed.

(** C8.  The returned list is a function of the request list, built
    stage by stage: the result for the requests followed by [c] lists,
    for each schedule of the previous stage in its order, its extensions
    by the options of [c] that fit, in option order. *)
Theorem build_schedules_nested_expansion_order :
  build_schedules [] = [[]] ∧
  ∀ (class_options : list UnrealizedClass) (c : UnrealizedClass),
    build_schedules (class_options ++ [c]) =
    mjoin
      ((λ schedule,
          (λ time_option, schedule ++ [mkClass (uname c) time_option])
            <$> filter (λ time_option,
                          new_class_time_fits schedule time_option = true)
                  (time_options c))
         <$> build_schedules class_options).
Proof.
  split; [reflexivity|]. intros class_options c.
  rewrite build_schedules_snoc. unfold extensions.
  induction (build_schedules class_options) as [|p l IH]; [done|].
  csimpl. by rewrite IH.
Qed.

(** Unfolds the no-conflict property on a schedule given in full. *)
Ltac check_conflict_free :=
  let i := fresh "i" in let j := fresh "j" in
  let t1 := fresh "t" in let t2 := fresh "t" in
  intros i j ? ? ? ? ? t1 t2 ? ?;
  repeat (destruct i as [|i]; simplify_eq/=);
  repeat (destruct j as [|j]; simplify_eq/=);
  repeat match goal with
         | H : _ ∈ [] |- _ => by inversion H
         | H : _ ∈ [_] |- _ => apply list_elem_of_singleton in H; subst
         | H : _ ∈ _ :: _ |- _ => apply elem_of_cons in H as [->|H]
         end;
  done.

(** C3 (counterexample).  A request that lists one option twice makes
    the same combination come out twice. *)
Lemma repeated_option_returned_twice :
  combination repeated_requests repeated_schedule ∧
  conflict_free repeated_schedule ∧
  occurrences repeated_schedule (build_schedules repeated_requests) = 2%nat.
Proof.
  split_and!.
  - repeat constructor.
  - check_conflict_free.
  - reflexivity.
Qed.

Lemma selection_multiplicity_snoc (class_options : list UnrealizedClass)
  (schedule : Schedule) (r : UnrealizedClass) (s : RealizedClass) :
  length class_options = length schedule →
  selection_multiplicity (class_options ++ [r]) (schedule ++ [s])
  = (selection_multiplicity class_options schedule * option_count r s)%nat.
Proof.
  revert schedule.
  induction class_options as [|r' rs IH]; intros [|s' ss] Hlen;
    simplify_eq/=; [lia|].
  rewrite IH by done. lia.
Qed.

Lemma selection_multiplicity_one (class_options : list UnrealizedClass)
  (schedule : Schedule) :
  length class_options = length schedule →
  selection_multiplicity class_options schedule = 1%nat ↔
  Forall2 (λ r s, option_count r s = 1%nat) class_options schedule.
Proof.
  revert schedule.
  induction class_options as [|r rs IH]; intros [|s ss] Hlen;
    simplify_eq/=.
  - split; [constructor | done].
  - rewrite Nat.eq_mul_1, Forall2_cons. by rewrite IH.
Qed.

(** The extensions of [p] by a request hold [p] with the selection [s]
    added as often as the request lists the option of [s]. *)
Lemma occurrences_extensions_self (c : UnrealizedClass) (p : Schedule)
  (s : RealizedClass) :
  name s = uname c →
  new_class_time_fits p (times s) = true →
  occurrences (p ++ [s]) (extensions c p) = option_count c s.
Proof.
  intros Hname Hfit. unfold occurrences, extensions, option_count.
  induction (time_options c) as [|o l IH]; [done|].
  rewrite (filter_cons (λ o', o' = times s)).
  rewrite (filter_cons (λ o', new_class_time_fits p o' = true)).
  destruct (decide (new_class_time_fits p o = true)) as [Ho|Ho].
  - rewrite fmap_cons, filter_cons.
    destruct (decide (p ++ [mkClass (uname c) o] = p ++ [s])) as [Heq|Hne];
      destruct (decide (o = times s)) as [Hos|Hos]; simpl.
    + by rewrite IH.
    + exfalso. apply Hos. apply app_inj_tail in Heq as [_ <-]. done.
    + exfalso. apply Hne. f_equal. f_equal. destruct s as [n ts].
      simpl in *. by subst.
    + done.
  - destruct (decide (o = times s)) as [->|Hos]; [done|]. done.
Qed.

(** The extensions of another partial schedule never give [p ++ [s]]. *)
Lemma occurrences_extensions_other (c : UnrealizedClass) (p q : Schedule)
  (s : RealizedClass) :
  q ≠ p → occurrences (p ++ [s]) (extensions c q) = 0%nat.
Proof.
  intros Hne. unfold occurrences.
  destruct (filter _ (extensions c q)) as [|x l] eqn:Hf; [done|]. exfalso.
  assert (x ∈ filter (λ s0, s0 = p ++ [s]) (extensions c q)) as Hx
    by (rewrite Hf; left).
  apply list_elem_of_filter in Hx as [-> Hx].
  apply elem_of_extensions in Hx as (o & Heq & _).
  by apply app_inj_tail in Heq as [-> _].
Qed.

Lemma occurrences_bind_extensions (c : UnrealizedClass) (l : list Schedule)
  (p : Schedule) (s : RealizedClass) :
  name s = uname c →
  new_class_time_fits p (times s) = true →
  occurrences (p ++ [s]) (l ≫= extensions c)
  = (occurrences p l * option_count c s)%nat.
Proof.
  intros Hname Hfit. induction l as [|q l IH]; [done|].
  csimpl. unfold occurrences in *.
  rewrite filter_app, length_app, IH, (filter_cons (λ s0, s0 = p)).
  destruct (decide (q = p)) as [->|Hne].
  - pose proof (occurrences_extensions_self c p s Hname Hfit) as Hself.
    unfold occurrences in Hself. rewrite Hself. simpl. lia.
  - pose proof (occurrences_extensions_other c p q s Hne) as Hother.
    unfold occurrences in Hother. rewrite Hother. simpl. lia.
Qed.

(** How often a schedule the builder accepts is returned. *)
Lemma occurrences_build_schedules (class_options : list UnrealizedClass)
  (schedule : Schedule) :
  combination class_options schedule →
  earlier_clear schedule →
  occurrences schedule (build_schedules class_options)
  = selection_multiplicity class_options schedule.
Proof.
  revert schedule.
  induction class_options as [|c cs IH] using rev_ind;
    intros schedule Hcomb Hclear.
  - apply Forall2_nil_inv_l in Hcomb as ->. reflexivity.
  - apply Forall2_app_inv_l in Hcomb as (p & tl & Hp & Htl & ->).
    apply Forall2_cons_inv_l in Htl as (s & tl' & [Hname Hopt] & Hnil & ->).
    apply Forall2_nil_inv_l in Hnil as ->.
    apply earlier_clear_snoc in Hclear as [Hclear Hs].
    rewrite build_schedules_snoc, occurrences_bind_extensions;
      [|done|by apply new_class_time_fits_clear].
    rewrite (IH p Hp Hclear), selection_multiplicity_snoc; [done|].
    by apply Forall2_length in Hp.
Qed.

(** C3 (amended).  Every combination of one option per request in which
    no two selections have an overlapping pair of blocks is in the list
    returned by [build_schedules], and it occurs there as many times as
    the product, over the requests, of the number of times the request
    lists the option selected for it.  So it occurs exactly once if and
    only if every request lists the option selected for it once, which
    is the case when no request lists the same option twice. *)
Theorem valid_combination_returned_by_multiplicity
  (class_options : list UnrealizedClass) (schedule : Schedule) :
  combination class_options schedule →
  conflict_free schedule →
  schedule ∈ build_schedules class_options ∧
  occurrences schedule (build_schedules class_options)
  = selection_multiplicity class_options schedule ∧
  (occurrences schedule (build_schedules class_options) = 1%nat ↔
   Forall2 (λ r s, option_count r s = 1%nat) class_options schedule) ∧
  ((∀ c, c ∈ class_options → NoDup (time_options c)) →
   occurrences schedule (build_schedules class_options) = 1%nat).
Proof.
  intros Hcomb Hfree.
  assert (schedule ∈ build_schedules class_options) as Hin.
  { apply elem_of_build_schedules. split; [done|].
    by apply conflict_free_earlier_clear. }
  assert (occurrences schedule (build_schedules class_options)
          = selection_multiplicity class_options schedule) as Hcount.
  { apply occurrences_build_schedules; [done|].
    by apply conflict_free_earlier_clear. }
  split_and!; [done|done| |].
  - rewrite Hcount. apply selection_multiplicity_one.
    by apply Forall2_length in Hcomb.
  - intros Hnd.
    apply occurrences_NoDup; [|done]. by apply NoDup_build_schedules.
Qed.

Lemma valid_combination_returned_by_multiplicity_witness :
  (touching_schedule ∈ build_schedules touching_requests ∧
   occurrences touching_schedule (build_schedules touching_requests) = 1%nat) ∧
  ([mkClass "Seminar" [tues_0900_1000]; mkClass "Lab" [mon_1000_1100]]
     ∈ build_schedules twice_listed_requests ∧
   occurrences
     [mkClass "Seminar" [tues_0900_1000]; mkClass "Lab" [mon_1000_1100]]
     (build_schedules twice_listed_requests) = 2%nat).
Proof.
  split.
  - destruct (valid_combination_returned_by_multiplicity touching_requests
                touching_schedule) as (Hin & _ & _ & Honce).
    + repeat constructor.
    + check_conflict_free.
    + split; [exact Hin|]. apply Honce. intros c Hc.
      repeat (apply elem_of_cons in Hc as [->|Hc];
              [apply (bool_decide_unpack _); vm_compute; exact I|]).
      by inversion Hc.
  - destruct (valid_combination_returned_by_multiplicity
                twice_listed_requests
                [mkClass "Seminar" [tues_0900_1000];
                 mkClass "Lab" [mon_1000_1100]]) as (Hin & Hcount & _ & _).
    + repeat constructor.
    + check_conflict_free.
    + split; [exact Hin|]. rewrite Hcount. reflexivity.
Defined.

(** C10 (counterexample).  A request with an empty option, next to a
    request without options: nothing is returned, so no returned
    schedule selects the empty option. *)
Lemma empty_option_not_always_selected :
  online_request ∈ dead_end_requests ∧
  [] ∈ time_options online_request ∧
  build_schedules dead_end_requests = [] ∧
  ¬ ∃ schedule, schedule ∈ build_schedules dead_end_requests ∧
                mkClass (uname online_request) [] ∈ schedule.
Proof.
  split_and!; [left | left | reflexivity |].
  intros (schedule & Hin & _). by inversion Hin.
Qed.

Lemma earlier_clear_insert_empty (schedule : Schedule) (i : nat) (n : string) :
  earlier_clear schedule →
  earlier_clear (<[i := mkClass n []]> schedule).
Proof.
  intros H j k cj ck Hjk Hj Hk.
  apply list_lookup_insert_Some in Hj as [(-> & <- & _)|[Hne Hj]].
  { intros t1 t2 Ht1. by inversion Ht1. }
  apply list_lookup_insert_Some in Hk as [(-> & <- & _)|[Hne' Hk]].
  { intros t1 t2 _ Ht2. by inversion Ht2. }
  by apply (H j k).
Qed.

(** C10 (amended).  An option with no blocks fits every schedule and is
    among the fitting classes of its request for every schedule; when
    [build_schedules] returns any schedule at all, it returns one in
    which the request has that option selected. *)
Theorem empty_option_fits :
  (∀ schedule, new_class_time_fits schedule [] = true) ∧
  (∀ schedule c, [] ∈ time_options c →
     mkClass (uname c) [] ∈ get_fitting_classes schedule c) ∧
  (∀ class_options (i : nat) c,
     class_options !! i = Some c → [] ∈ time_options c →
     build_schedules class_options ≠ [] →
     ∃ schedule, schedule ∈ build_schedules class_options ∧
                 schedule !! i = Some (mkClass (uname c) [])).
Proof.
  split_and!.
  - reflexivity.
  - intros schedule c Hc. rewrite get_fitting_classes_filter.
    apply list_elem_of_fmap. exists []. split; [done|].
    by apply list_elem_of_filter.
  - intros class_options i c Hi Hc Hne.
    destruct (build_schedules class_options) as [|s0 l] eqn:Hb; [done|].
    assert (s0 ∈ build_schedules class_options) as Hs0 by (rewrite Hb; left).
    apply elem_of_build_schedules in Hs0 as [Hcomb Hclear].
    exists (<[i := mkClass (uname c) []]> s0). split.
    + rewrite <- Hb. apply elem_of_build_schedules. split.
      * unfold combination. rewrite <- (list_insert_id class_options i c Hi).
        by apply Forall2_insert.
      * by apply earlier_clear_insert_empty.
    + apply list_lookup_insert_eq.
      rewrite <- (Forall2_length _ _ _ Hcomb). by apply lookup_lt_Some in Hi.
Qed.

Lemma empty_option_fits_witness :
  ∃ schedule, schedule ∈ build_schedules [online_request] ∧
              schedule !! 0%nat = Some (mkClass "Online" []).
Proof.
  destruct empty_option_fits as (_ & _ & H).
  apply (H [online_request] 0%nat online_request).
  - reflexivity.
  - left.
  - discriminate.
Defined.

(** ** Running heap computations *)

Section heap_monad.
Context {A B : Type}.

Lemma M_bind_Some (m : Heap.M A) (k : A → Heap.M B) h r :
  (m ≫= k) h = Some r ↔ ∃ a h1, m h = Some (a, h1) ∧ k a h1 = Some r.
Proof.
  unfold mbind, Heap.M_bind. destruct (m h) as [[a h1]|]; split.
  - intros Hk. by exists a, h1.
  - by intros (a' & h1' & [= <- <-] & Hk).
  - done.
  - by intros (a' & h1' & [=] & _).
Qed.

Lemma M_bind_run (m : Heap.M A) (k : A → Heap.M B) h a h1 :
  m h = Some (a, h1) → (m ≫= k) h = k a h1.
Proof. unfold mbind, Heap.M_bind. by intros ->. Qed.

End heap_monad.

Lemma read_Some l h o h' :
  Heap.read l h = Some (o, h') ↔ h !! l = Some o ∧ h' = h.
Proof.
  unfold Heap.read. destruct (h !! l) as [o'|]; split.
  - by intros [= -> ->].
  - by intros [[= ->] ->].
  - done.
  - by intros [[=] _].
Qed.

Lemma alloc_Some o h l h' :
  Heap.alloc o h = Some (l, h') ↔
  l = fresh (dom h) ∧ h !! l = None ∧ h' = <[l := o]> h.
Proof.
  unfold Heap.alloc. split.
  - intros [= <- <-]. split_and!; [done| |done].
    apply not_elem_of_dom, is_fresh.
  - by intros (-> & _ & ->).
Qed.

Lemma list_items_Some l h xs h' :
  Heap.list_items l h = Some (xs, h') ↔
  h !! l = Some (Heap.OList xs) ∧ h' = h.
Proof.
  unfold Heap.list_items. rewrite M_bind_Some. split.
  - intros (o & h1 & [Ho ->]%read_Some & Hr).
    destruct o; try done. by injection Hr as -> ->.
  - intros [Hl ->]. exists (Heap.OList xs), h. by rewrite read_Some.
Qed.

(** ** Which objects a computation can change *)

Section readonly.
Context {A B : Type}.

Lemma readonly_ret (a : A) : readonly (mret a : Heap.M A).
Proof. by intros h a' h' [= _ <-]. Qed.

Lemma readonly_raise : readonly (Heap.raise : Heap.M A).
Proof. by intros h a h'. Qed.

Lemma readonly_bind (m : Heap.M A) (k : A → Heap.M B) :
  readonly m → (∀ a, readonly (k a)) → readonly (m ≫= k).
Proof.
  intros Hm Hk h b h' (a & h1 & Hm1 & Hk1)%M_bind_Some.
  apply Hm in Hm1 as ->. by apply Hk in Hk1.
Qed.

Lemma readonly_preserves h0 (m : Heap.M A) : readonly m → preserves h0 m.
Proof. intros Hm h a h' Hsub Hrun. by apply Hm in Hrun as ->. Qed.

Lemma preserves_bind h0 (m : Heap.M A) (k : A → Heap.M B) :
  preserves h0 m → (∀ a, preserves h0 (k a)) → preserves h0 (m ≫= k).
Proof.
  intros Hm Hk h b h' Hsub (a & h1 & Hm1 & Hk1)%M_bind_Some.
  eapply Hk; [|done]. by eapply Hm.
Qed.

(** What follows an allocation may rely on the new address being
    outside [h0]. *)
Lemma preserves_alloc_bind h0 o (k : Heap.loc → Heap.M B) :
  (∀ l, h0 !! l = None → preserves h0 (k l)) →
  preserves h0 (Heap.alloc o ≫= k).
Proof.
  intros Hk h b h' Hsub (l & h1 & (-> & Hl & ->)%alloc_Some & Hk1)%M_bind_Some.
  assert (h0 !! fresh (dom h) = None) as Hl0.
  { by eapply lookup_weaken_None. }
  eapply (Hk _ Hl0); [|done]. by apply insert_subseteq_r.
Qed.

End readonly.

Lemma readonly_read l : readonly (Heap.read l).
Proof. by intros h o h' [_ ->]%read_Some. Qed.

Lemma preserves_alloc h0 o : preserves h0 (Heap.alloc o).
Proof.
  intros h l h' Hsub (-> & Hl & ->)%alloc_Some.
  apply insert_subseteq_r; [|done]. by eapply lookup_weaken_None.
Qed.

(** A write is harmless when it goes to an address outside [h0]. *)
Lemma preserves_write h0 l o : h0 !! l = None → preserves h0 (Heap.write l o).
Proof.
  intros Hl h [] h' Hsub [= <-]. by apply insert_subseteq_r.
Qed.

Create HintDb heap_frame discriminated.

#[local] Hint Resolve readonly_ret readonly_raise readonly_read : heap_frame.

(** Decomposes a sequence of reads. *)
Ltac solve_readonly :=
  repeat first
    [ apply readonly_ret | apply readonly_raise | apply readonly_read
    | apply readonly_bind; [|intros ?]
    | match goal with
      | |- readonly (match ?x with _ => _ end) => destruct x
      end
    | progress eauto with heap_frame ].

Lemma readonly_get_mins l : readonly (Heap.get_mins l).
Proof. unfold Heap.get_mins. solve_readonly. Qed.
Lemma readonly_get_day l : readonly (Heap.get_day l).
Proof. unfold Heap.get_day. solve_readonly. Qed.
Lemma readonly_get_start_time l : readonly (Heap.get_start_time l).
Proof. unfold Heap.get_start_time. solve_readonly. Qed.
Lemma readonly_get_end_time l : readonly (Heap.get_end_time l).
Proof. unfold Heap.get_end_time. solve_readonly. Qed.
Lemma readonly_get_name l : readonly (Heap.get_name l).
Proof. unfold Heap.get_name. solve_readonly. Qed.
Lemma readonly_get_time_options l : readonly (Heap.get_time_options l).
Proof. unfold Heap.get_time_options. solve_readonly. Qed.
Lemma readonly_get_times l : readonly (Heap.get_times l).
Proof. unfold Heap.get_times. solve_readonly. Qed.
Lemma readonly_list_items l : readonly (Heap.list_items l).
Proof. unfold Heap.list_items. solve_readonly. Qed.

#[local] Hint Resolve readonly_get_mins readonly_get_day
  readonly_get_start_time readonly_get_end_time readonly_get_name
  readonly_get_time_options readonly_get_times readonly_list_items
  : heap_frame.

Lemma readonly_Time_lt a b : readonly (Heap.Time_lt a b).
Proof. unfold Heap.Time_lt. solve_readonly. Qed.
Lemma readonly_Time_eq a b : readonly (Heap.Time_eq a b).
Proof. unfold Heap.Time_eq. solve_readonly. Qed.

#[local] Hint Resolve readonly_Time_lt readonly_Time_eq : heap_frame.

Lemma readonly_Time_le a b : readonly (Heap.Time_le a b).
Proof. unfold Heap.Time_le. solve_readonly. Qed.

#[local] Hint Resolve readonly_Time_le : heap_frame.

Lemma readonly_Time_ge a b : readonly (Heap.Time_ge a b).
Proof. unfold Heap.Time_ge. solve_readonly. Qed.

#[local] Hint Resolve readonly_Time_ge : heap_frame.

Lemma readonly_overlaps a b : readonly (Heap.overlaps a b).
Proof. unfold Heap.overlaps. solve_readonly. Qed.

#[local] Hint Resolve readonly_overlaps : heap_frame.

Lemma readonly_for_in_return {R : Type} fuel l i
  (body : Heap.loc → Heap.M (option R)) :
  (∀ x, readonly (body x)) → readonly (Heap.for_in_return fuel l i body).
Proof.
  intros Hbody. revert i.
  induction fuel as [|fuel IH]; intros i; simpl; [apply readonly_raise|].
  apply readonly_bind; [apply readonly_list_items|]. intros xs.
  destruct (xs !! i); [|apply readonly_ret].
  apply readonly_bind; [done|]. intros [r|]; [apply readonly_ret|apply IH].
Qed.

Lemma readonly_new_class_time_fits fuel schedule new_times :
  readonly (Heap.new_class_time_fits fuel schedule new_times).
Proof.
  unfold Heap.new_class_time_fits.
  apply readonly_bind; [|intros; apply readonly_ret].
  apply readonly_for_in_return. intros new_time.
  apply readonly_for_in_return. intros c.
  apply readonly_bind; [apply readonly_get_times|]. intros ts.
  apply readonly_for_in_return. intros time. solve_readonly.
Qed.

Lemma preserves_for_in {St : Type} h0 fuel l i (s : St)
  (body : St → Heap.loc → Heap.M St) :
  (∀ s x, preserves h0 (body s x)) →
  preserves h0 (Heap.for_in fuel l i s body).
Proof.
  intros Hbody. revert i s.
  induction fuel as [|fuel IH]; intros i s; simpl.
  { apply readonly_preserves, readonly_raise. }
  apply preserves_bind.
  { apply readonly_preserves, readonly_list_items. }
  intros xs. destruct (xs !! i).
  - apply preserves_bind; [done|]. intros s'. apply IH.
  - apply readonly_preserves, readonly_ret.
Qed.

Lemma preserves_list_append h0 l x :
  h0 !! l = None → preserves h0 (Heap.list_append l x).
Proof.
  intros Hl. unfold Heap.list_append. apply preserves_bind.
  - apply readonly_preserves, readonly_list_items.
  - intros xs. by apply preserves_write.
Qed.

Lemma preserves_list_copy h0 l : preserves h0 (Heap.list_copy l).
Proof.
  unfold Heap.list_copy. apply preserves_bind.
  - apply readonly_preserves, readonly_list_items.
  - intros xs. apply preserves_alloc.
Qed.

Lemma preserves_list_add h0 l1 l2 : preserves h0 (Heap.list_add l1 l2).
Proof.
  unfold Heap.list_add.
  apply preserves_bind; [apply readonly_preserves, readonly_list_items|].
  intros xs.
  apply preserves_bind; [apply readonly_preserves, readonly_list_items|].
  intros ys. apply preserves_alloc.
Qed.

(** [get_fitting_classes] writes to the list it creates and to nothing
    else. *)
Lemma preserves_get_fitting_classes h0 fuel schedule new_class :
  preserves h0 (Heap.get_fitting_classes fuel schedule new_class).
Proof.
  unfold Heap.get_fitting_classes, Heap.list_new.
  apply preserves_alloc_bind. intros fitting_classes Hfresh.
  apply preserves_bind.
  { apply readonly_preserves, readonly_get_time_options. }
  intros options. apply preserves_bind.
  2:{ intros _. apply readonly_preserves, readonly_ret. }
  apply preserves_for_in. intros [] time_option.
  apply preserves_bind.
  { apply readonly_preserves, readonly_new_class_time_fits. }
  intros [|]; [|apply readonly_preserves, readonly_ret].
  apply preserves_bind; [apply readonly_preserves, readonly_get_name|].
  intros n. apply preserves_bind; [apply preserves_alloc|].
  intros c. by apply preserves_list_append.
Qed.

(** [build_schedules] writes to the lists it creates and to nothing
    else: an object of the heap it is called on is the same afterwards. *)
Lemma preserves_build_schedules h0 fuel class_options :
  preserves h0 (Heap.build_schedules fuel class_options).
Proof.
  unfold Heap.build_schedules, Heap.list_new.
  apply preserves_bind; [apply preserves_alloc|]. intros empty.
  apply preserves_bind; [apply preserves_alloc|]. intros schedules0.
  apply preserves_for_in. intros schedules c.
  apply preserves_alloc_bind. intros new_schedules Hfresh.
  apply preserves_bind.
  2:{ intros _. apply readonly_preserves, readonly_ret. }
  apply preserves_for_in. intros [] schedule.
  apply preserves_bind; [apply preserves_get_fitting_classes|].
  intros fitting_classes.
  apply preserves_for_in. intros [] fitting_class.
  apply preserves_bind; [apply preserves_list_copy|]. intros copy.
  apply preserves_bind; [apply preserves_alloc|]. intros single.
  apply preserves_bind; [apply preserves_list_add|]. intros sum.
  by apply preserves_list_append.
Qed.

(** ** More fuel gives the same result *)

Section below.
Context {A B : Type}.

Lemma below_refl (m : Heap.M A) : below m m.
Proof. by intros h r. Qed.

Lemma below_bind (m m' : Heap.M A) (k k' : A → Heap.M B) :
  below m m' → (∀ a, below (k a) (k' a)) → below (m ≫= k) (m' ≫= k').
Proof.
  intros Hm Hk h r (a & h1 & Hm1 & Hk1)%M_bind_Some.
  apply M_bind_Some. exists a, h1. split; [by apply Hm | by apply Hk].
Qed.

End below.

Lemma below_for_in {A : Type} n n' l i (s : A)
  (body body' : A → Heap.loc → Heap.M A) :
  (n ≤ n')%nat → (∀ s x, below (body s x) (body' s x)) →
  below (Heap.for_in n l i s body) (Heap.for_in n' l i s body').
Proof.
  intros Hn Hbody. revert n' Hn i s.
  induction n as [|n IH]; intros n' Hn i s; [by intros h r|].
  destruct n' as [|n']; [lia|]. simpl.
  apply below_bind; [apply below_refl|]. intros xs.
  destruct (xs !! i); [|apply below_refl].
  apply below_bind; [done|]. intros s'. apply IH. lia.
Qed.

Lemma below_for_in_return {A : Type} n n' l i
  (body body' : Heap.loc → Heap.M (option A)) :
  (n ≤ n')%nat → (∀ x, below (body x) (body' x)) →
  below (Heap.for_in_return n l i body) (Heap.for_in_return n' l i body').
Proof.
  intros Hn Hbody. revert n' Hn i.
  induction n as [|n IH]; intros n' Hn i; [by intros h r|].
  destruct n' as [|n']; [lia|]. simpl.
  apply below_bind; [apply below_refl|]. intros xs.
  destruct (xs !! i); [|apply below_refl].
  apply below_bind; [done|]. intros [r|]; [apply below_refl|].
  apply IH. lia.
Qed.

Lemma new_class_time_fits_fuel n n' schedule new_times :
  (n ≤ n')%nat →
  below (Heap.new_class_time_fits n schedule new_times)
        (Heap.new_class_time_fits n' schedule new_times).
Proof.
  intros Hn. unfold Heap.new_class_time_fits.
  apply below_bind; [|intros; apply below_refl].
  apply below_for_in_return; [done|]. intros new_time.
  apply below_for_in_return; [done|]. intros c.
  apply below_bind; [apply below_refl|]. intros ts.
  apply below_for_in_return; [done|]. intros time. apply below_refl.
Qed.

Lemma get_fitting_classes_fuel n n' schedule new_class :
  (n ≤ n')%nat →
  below (Heap.get_fitting_classes n schedule new_class)
        (Heap.get_fitting_classes n' schedule new_class).
Proof.
  intros Hn. unfold Heap.get_fitting_classes.
  apply below_bind; [apply below_refl|]. intros fitting_classes.
  apply below_bind; [apply below_refl|]. intros options.
  apply below_bind; [|intros; apply below_refl].
  apply below_for_in; [done|]. intros [] time_option.
  apply below_bind; [by apply new_class_time_fits_fuel|].
  intros b. apply below_refl.
Qed.

Lemma build_schedules_fuel n n' class_options :
  (n ≤ n')%nat →
  below (Heap.build_schedules n class_options)
        (Heap.build_schedules n' class_options).
Proof.
  intros Hn. unfold Heap.build_schedules.
  apply below_bind; [apply below_refl|]. intros empty.
  apply below_bind; [apply below_refl|]. intros schedules0.
  apply below_for_in; [done|]. intros schedules c.
  apply below_bind; [apply below_refl|]. intros new_schedules.
  apply below_bind; [|intros; apply below_refl].
  apply below_for_in; [done|]. intros [] schedule.
  apply below_bind; [by apply get_fitting_classes_fuel|].
  intros fitting_classes.
  apply below_for_in; [done|]. intros [] fitting_class. apply below_refl.
Qed.

(** ** Values on a larger heap *)

Lemma list_at_Some {A : Type} (item_at : Heap.heap → Heap.loc → option A)
  h l vs :
  Heap.list_at item_at h l = Some vs ↔
  ∃ xs, h !! l = Some (Heap.OList xs) ∧
        Forall2 (λ x v, item_at h x = Some v) xs vs.
Proof.
  unfold Heap.list_at. split.
  - destruct (h !! l) as [[]|]; try done.
    intros Hm%mapM_Some. eauto.
  - intros (xs & -> & Hm). by apply mapM_Some.
Qed.

Lemma time_at_Some h l t :
  Heap.time_at h l = Some t ↔ h !! l = Some (Heap.OTime (Time.mins t)).
Proof.
  unfold Heap.time_at. destruct t as [m]. simpl.
  destruct (h !! l) as [[]|]; split; try done; by intros [= ->].
Qed.

Lemma class_time_at_Some h l ct :
  Heap.class_time_at h l = Some ct ↔
  ∃ s e, h !! l = Some (Heap.OClassTime (day ct) s e) ∧
         Heap.time_at h s = Some (start_time ct) ∧
         Heap.time_at h e = Some (end_time ct).
Proof.
  unfold Heap.class_time_at. destruct ct as [d ts te]. simpl. split.
  - destruct (h !! l) as [[]|]; try done.
    intros (s' & Hs & (e' & He & [= -> -> ->])%bind_Some)%bind_Some. eauto.
  - intros (s & e & -> & -> & ->). done.
Qed.

Lemma request_at_Some h l r :
  Heap.request_at h l = Some r ↔
  ∃ t, h !! l = Some (Heap.OUnrealizedClass (uname r) t) ∧
       Heap.list_at Heap.times_at h t = Some (time_options r).
Proof.
  unfold Heap.request_at. destruct r as [n opts]. simpl. split.
  - destruct (h !! l) as [[]|]; try done.
    intros (o & Ho & [= -> ->])%bind_Some. eauto.
  - intros (t & -> & ->). done.
Qed.

Lemma class_at_Some h l c :
  Heap.class_at h l = Some c ↔
  ∃ t, h !! l = Some (Heap.OClass (name c) t) ∧
       Heap.times_at h t = Some (times c).
Proof.
  unfold Heap.class_at. destruct c as [n ts]. simpl. split.
  - destruct (h !! l) as [[]|]; try done.
    intros (o & Ho & [= -> ->])%bind_Some. eauto.
  - intros (t & -> & ->). done.
Qed.

Lemma stable_time_at : stable Heap.time_at.
Proof.
  intros h h' l t Hsub. rewrite !time_at_Some.
  intros Hl. by eapply lookup_weaken.
Qed.

Lemma stable_class_time_at : stable Heap.class_time_at.
Proof.
  intros h h' l ct Hsub. rewrite !class_time_at_Some.
  intros (s & e & Hl & Hs & He). exists s, e.
  split_and!; [by eapply lookup_weaken | by eapply stable_time_at..].
Qed.

Lemma stable_list_at {A : Type} (item_at : Heap.heap → Heap.loc → option A) :
  stable item_at → stable (Heap.list_at item_at).
Proof.
  intros Hitem h h' l vs Hsub. rewrite !list_at_Some.
  intros (xs & Hl & Hall). exists xs. split; [by eapply lookup_weaken|].
  eapply Forall2_impl; [done|]. intros x v. by apply Hitem.
Qed.

Lemma stable_times_at : stable Heap.times_at.
Proof. apply stable_list_at, stable_class_time_at. Qed.

Lemma stable_request_at : stable Heap.request_at.
Proof.
  intros h h' l r Hsub. rewrite !request_at_Some.
  intros (t & Hl & Ht). exists t. split; [by eapply lookup_weaken|].
  by eapply (stable_list_at _ stable_times_at).
Qed.

Lemma stable_class_at : stable Heap.class_at.
Proof.
  intros h h' l c Hsub. rewrite !class_at_Some.
  intros (t & Hl & Ht). exists t. split; [by eapply lookup_weaken|].
  by eapply stable_times_at.
Qed.

Lemma stable_requests_at : stable Heap.requests_at.
Proof. apply stable_list_at, stable_request_at. Qed.

Lemma stable_schedule_at : stable Heap.schedule_at.
Proof. apply stable_list_at, stable_class_at. Qed.

Lemma stable_schedules_at : stable Heap.schedules_at.
Proof. apply stable_list_at, stable_schedule_at. Qed.

(** ** The reads of the builder, run on a heap *)

Lemma get_mins_run h l m :
  h !! l = Some (Heap.OTime m) → Heap.get_mins l h = Some (m, h).
Proof. intros Hl. unfold Heap.get_mins, mbind, Heap.M_bind, Heap.read. by rewrite Hl. Qed.

Lemma get_day_run h l d s e :
  h !! l = Some (Heap.OClassTime d s e) → Heap.get_day l h = Some (d, h).
Proof. intros Hl. unfold Heap.get_day, mbind, Heap.M_bind, Heap.read. by rewrite Hl. Qed.

Lemma get_start_time_run h l d s e :
  h !! l = Some (Heap.OClassTime d s e) →
  Heap.get_start_time l h = Some (s, h).
Proof.
  intros Hl. unfold Heap.get_start_time, mbind, Heap.M_bind, Heap.read.
  by rewrite Hl.
Qed.

Lemma get_end_time_run h l d s e :
  h !! l = Some (Heap.OClassTime d s e) →
  Heap.get_end_time l h = Some (e, h).
Proof.
  intros Hl. unfold Heap.get_end_time, mbind, Heap.M_bind, Heap.read.
  by rewrite Hl.
Qed.

Lemma get_name_run h l n t :
  h !! l = Some (Heap.OUnrealizedClass n t) →
  Heap.get_name l h = Some (n, h).
Proof.
  intros Hl. unfold Heap.get_name, mbind, Heap.M_bind, Heap.read.
  by rewrite Hl.
Qed.

Lemma get_time_options_run h l n t :
  h !! l = Some (Heap.OUnrealizedClass n t) →
  Heap.get_time_options l h = Some (t, h).
Proof.
  intros Hl. unfold Heap.get_time_options, mbind, Heap.M_bind, Heap.read.
  by rewrite Hl.
Qed.

Lemma get_times_run h l n t :
  h !! l = Some (Heap.OClass n t) → Heap.get_times l h = Some (t, h).
Proof.
  intros Hl. unfold Heap.get_times, mbind, Heap.M_bind, Heap.read.
  by rewrite Hl.
Qed.

Lemma list_items_run h l xs :
  h !! l = Some (Heap.OList xs) → Heap.list_items l h = Some (xs, h).
Proof. intros Hl. by apply list_items_Some. Qed.

Lemma alloc_run h o :
  Heap.alloc o h = Some (fresh (dom h), <[fresh (dom h) := o]> h).
Proof. reflexivity. Qed.

Lemma fresh_lookup (h : Heap.heap) : h !! fresh (dom h) = None.
Proof. apply not_elem_of_dom, is_fresh. Qed.

Lemma list_append_run h l xs x :
  h !! l = Some (Heap.OList xs) →
  Heap.list_append l x h = Some ((), <[l := Heap.OList (xs ++ [x])]> h).
Proof.
  intros Hl. unfold Heap.list_append.
  by rewrite (M_bind_run _ _ _ _ _ (list_items_run _ _ _ Hl)).
Qed.

(** Runs the first computation of a sequence with the given equation. *)
Ltac run_step H := rewrite (M_bind_run _ _ _ _ _ H); cbv beta.

Lemma Time_lt_run h a b ta tb :
  Heap.time_at h a = Some ta → Heap.time_at h b = Some tb →
  Heap.Time_lt a b h = Some (Time.lt ta tb, h).
Proof.
  intros Ha%time_at_Some Hb%time_at_Some. unfold Heap.Time_lt.
  run_step (get_mins_run _ _ _ Ha). by run_step (get_mins_run _ _ _ Hb).
Qed.

Lemma Time_eq_run h a b ta tb :
  Heap.time_at h a = Some ta → Heap.time_at h b = Some tb →
  Heap.Time_eq a b h = Some (Time.eq ta tb, h).
Proof.
  intros Ha%time_at_Some Hb%time_at_Some. unfold Heap.Time_eq.
  run_step (get_mins_run _ _ _ Ha). by run_step (get_mins_run _ _ _ Hb).
Qed.

Lemma Time_le_run h a b ta tb :
  Heap.time_at h a = Some ta → Heap.time_at h b = Some tb →
  Heap.Time_le a b h = Some (Time.le ta tb, h).
Proof.
  intros Ha Hb. unfold Heap.Time_le, Time.le.
  run_step (Time_lt_run _ _ _ _ _ Ha Hb).
  destruct (Time.lt ta tb); [done|]. by apply Time_eq_run.
Qed.

Lemma Time_ge_run h a b ta tb :
  Heap.time_at h a = Some ta → Heap.time_at h b = Some tb →
  Heap.Time_ge a b h = Some (Time.ge ta tb, h).
Proof. intros Ha Hb. by apply Time_le_run. Qed.

(** [overlaps] on the heap computes [overlaps] of the two blocks and
    leaves the heap as it is. *)
Lemma overlaps_run h a b ta tb :
  Heap.class_time_at h a = Some ta → Heap.class_time_at h b = Some tb →
  Heap.overlaps a b h = Some (overlaps ta tb, h).
Proof.
  intros (sa & ea & Ha & Hsa & Hea)%class_time_at_Some
         (sb & eb & Hb & Hsb & Heb)%class_time_at_Some.
  unfold Heap.overlaps, overlaps.
  run_step (get_day_run _ _ _ _ _ Ha). run_step (get_day_run _ _ _ _ _ Hb).
  cbv zeta.
  assert ((s ← Heap.get_start_time a; s' ← Heap.get_start_time b;
           b0 ← Heap.Time_ge s s';
           if b0 : bool
           then s0 ← Heap.get_start_time a; e' ← Heap.get_end_time b;
                Heap.Time_le s0 e'
           else mret false) h
          = Some (Time.ge (start_time ta) (start_time tb)
                  && Time.le (start_time ta) (end_time tb), h)) as Hstart.
  { run_step (get_start_time_run _ _ _ _ _ Ha).
    run_step (get_start_time_run _ _ _ _ _ Hb).
    run_step (Time_ge_run _ _ _ _ _ Hsa Hsb).
    destruct (Time.ge _ _); [|done].
    run_step (get_start_time_run _ _ _ _ _ Ha).
    run_step (get_end_time_run _ _ _ _ _ Hb).
    by apply Time_le_run. }
  run_step Hstart. clear Hstart.
  assert ((e ← Heap.get_end_time a; s' ← Heap.get_start_time b;
           b0 ← Heap.Time_ge e s';
           if b0 : bool
           then e0 ← Heap.get_end_time a; e' ← Heap.get_end_time b;
                Heap.Time_le e0 e'
           else mret false) h
          = Some (Time.ge (end_time ta) (start_time tb)
                  && Time.le (end_time ta) (end_time tb), h)) as Hend.
  { run_step (get_end_time_run _ _ _ _ _ Ha).
    run_step (get_start_time_run _ _ _ _ _ Hb).
    run_step (Time_ge_run _ _ _ _ _ Hea Hsb).
    destruct (Time.ge _ _); [|done].
    run_step (get_end_time_run _ _ _ _ _ Ha).
    run_step (get_end_time_run _ _ _ _ _ Hb).
    by apply Time_le_run. }
  run_step Hend. done.
Qed.

(** ** Loop rules *)

(** A loop with a read-only body, on a list the heap holds: with enough
    fuel it computes [for_return] over the values of the items. *)
Lemma for_in_return_run {R V : Type}
  (body : nat → Heap.loc → Heap.M (option R)) (bodyv : V → option R)
  l xs h :
  (∀ n n' x, (n ≤ n')%nat → below (body n x) (body n' x)) →
  h !! l = Some (Heap.OList xs) →
  ∀ vs i,
    Forall2 (λ x v, ∃ fuel, body fuel x h = Some (bodyv v, h))
      (drop i xs) vs →
    ∃ fuel,
      Heap.for_in_return fuel l i (body fuel) h
      = Some (for_return vs bodyv, h).
Proof.
  intros Hmono Hl vs.
  induction vs as [|v vs IH]; intros i Hall.
  - apply Forall2_nil_inv_r in Hall. exists 1%nat. simpl.
    run_step (list_items_run _ _ _ Hl).
    assert (xs !! i = None) as ->; [|done].
    apply lookup_ge_None. by apply drop_nil_inv.
  - apply Forall2_cons_inv_r in Hall
      as (x & rest & (f1 & Hx) & Hrest & Hdrop).
    assert (xs !! i = Some x) as Hi.
    { rewrite <- (Nat.add_0_r i), <- lookup_drop. by rewrite Hdrop. }
    assert (drop (S i) xs = rest) as Hdrop'.
    { rewrite (drop_S _ _ _ Hi) in Hdrop. by injection Hdrop. }
    simpl. destruct (bodyv v) as [r|] eqn:Hv.
    + exists (S f1). simpl. run_step (list_items_run _ _ _ Hl).
      rewrite Hi.
      assert (body (S f1) x h = Some (Some r, h)) as Hx'.
      { eapply Hmono; [|done]. lia. }
      by run_step Hx'.
    + rewrite <- Hdrop' in Hrest. apply IH in Hrest as [f2 Hrest].
      exists (S (f1 `max` f2)). simpl.
      run_step (list_items_run _ _ _ Hl). rewrite Hi.
      assert (body (S (f1 `max` f2)) x h = Some (None, h)) as Hx'.
      { eapply Hmono; [|done]. lia. }
      run_step Hx'.
      eapply below_for_in_return; [| |done]; [lia|].
      intros y. apply Hmono. lia.
Qed.

(** A loop whose body keeps an invariant [I], indexed by the number of
    items done.  The invariant must fix the items of the list the loop
    runs over. *)
Lemma for_in_run {St : Type}
  (body : nat → St → Heap.loc → Heap.M St)
  (I : nat → St → Heap.heap → Prop) l xs :
  (∀ n n' s x, (n ≤ n')%nat → below (body n s x) (body n' s x)) →
  (∀ i s h, I i s h → h !! l = Some (Heap.OList xs)) →
  (∀ i x s h, xs !! i = Some x → I i s h →
     ∃ fuel s' h', body fuel s x h = Some (s', h') ∧ I (S i) s' h') →
  ∀ k i s h, (i + k = length xs)%nat → I i s h →
    ∃ fuel s' h',
      Heap.for_in fuel l i s (body fuel) h = Some (s', h') ∧
      I (length xs) s' h'.
Proof.
  intros Hmono Hlist Hbody k.
  induction k as [|k IH]; intros i s h Hik HI.
  - exists 1%nat, s, h. simpl.
    run_step (list_items_run _ _ _ (Hlist _ _ _ HI)).
    assert (xs !! i = None) as -> by (apply lookup_ge_None; lia).
    split; [done|]. by replace (length xs) with i by lia.
  - destruct (lookup_lt_is_Some_2 xs i) as [x Hi]; [lia|].
    destruct (Hbody _ _ _ _ Hi HI) as (f1 & s1 & h1 & Hx & HI1).
    destruct (IH (S i) s1 h1) as (f2 & s2 & h2 & Hrest & HI2); [lia|done|].
    exists (S (f1 `max` f2)), s2, h2. split; [|done]. simpl.
    run_step (list_items_run _ _ _ (Hlist _ _ _ HI)). rewrite Hi.
    assert (body (S (f1 `max` f2)) s x h = Some (s1, h1)) as Hx'.
    { eapply Hmono; [|done]. lia. }
    run_step Hx'.
    eapply below_for_in; [| |done]; [lia|].
    intros s' y. apply Hmono. lia.
Qed.

(** ** [new_class_time_fits] on the heap *)

Lemma new_class_time_fits_run h schedule sv new_times nv :
  Heap.schedule_at h schedule = Some sv →
  Heap.times_at h new_times = Some nv →
  ∃ fuel,
    Heap.new_class_time_fits fuel schedule new_times h
    = Some (new_class_time_fits sv nv, h).
Proof.
  intros (cs & Hs & Hcs)%list_at_Some (ns & Hn & Hns)%list_at_Some.
  unfold Heap.new_class_time_fits, new_class_time_fits.
  destruct (for_in_return_run
    (λ fuel new_time,
       Heap.for_in_return fuel schedule 0 (λ c,
         ts ← Heap.get_times c;
         Heap.for_in_return fuel ts 0 (λ time,
           b ← Heap.overlaps time new_time;
           mret (if b : bool then Some false else None))))
    (λ new_time,
       for_return sv (λ c,
         for_return (times c) (λ time,
           if overlaps time new_time then Some false else None)))
    new_times ns h) with (vs := nv) (i := 0%nat) as [fuel Hrun].
  - intros n n' x Hn'. apply below_for_in_return; [done|]. intros c.
    apply below_bind; [apply below_refl|]. intros ts.
    apply below_for_in_return; [done|]. intros time. apply below_refl.
  - done.
  - rewrite drop_0. eapply Forall2_impl; [exact Hns|].
    intros new_time ntv Hnt. cbv beta.
    apply (for_in_return_run
      (λ fuel c,
         ts ← Heap.get_times c;
         Heap.for_in_return fuel ts 0 (λ time,
           b ← Heap.overlaps time new_time;
           mret (if b : bool then Some false else None)))
      (λ c, for_return (times c) (λ time,
              if overlaps time ntv then Some false else None))
      schedule cs h).
    + intros n n' x Hn'. apply below_bind; [apply below_refl|]. intros ts.
      apply below_for_in_return; [done|]. intros time. apply below_refl.
    + done.
    + rewrite drop_0. eapply Forall2_impl; [exact Hcs|].
      intros c cv (t & Hc & (ts & Ht & Hts)%list_at_Some)%class_at_Some.
      cbv beta.
      destruct (for_in_return_run
        (λ (_ : nat) time,
           b ← Heap.overlaps time new_time;
           mret (if b : bool then Some false else None))
        (λ time, if overlaps time ntv then Some false else None)
        t ts h) with (vs := times cv) (i := 0%nat) as [fuel Hrun].
      * intros n n' x _. apply below_refl.
      * done.
      * rewrite drop_0. eapply Forall2_impl; [exact Hts|].
        intros time tv Htime. exists 0%nat.
        by run_step (overlaps_run _ _ _ _ _ Htime Hnt).
      * exists fuel. by run_step (get_times_run _ _ _ _ Hc).
  - exists fuel. run_step Hrun. done.
Qed.

(** ** The heap without some addresses *)

Lemma lookup_hide_Some X h a o :
  hide X h !! a = Some o ↔ (a ∉ X) ∧ h !! a = Some o.
Proof. unfold hide. rewrite map_lookup_filter_Some. simpl. tauto. Qed.

Lemma hide_subseteq X h : hide X h ⊆ h.
Proof. apply map_filter_subseteq. Qed.

Lemma hide_subseteq_hide X Y h h' :
  (∀ a o, a ∉ X → h !! a = Some o → (a ∉ Y) ∧ h' !! a = Some o) →
  hide X h ⊆ hide Y h'.
Proof.
  intros H. apply map_subseteq_spec. intros a o [Ha Ho]%lookup_hide_Some.
  apply lookup_hide_Some. by apply H.
Qed.

Lemma hide_empty h : hide ∅ h = h.
Proof.
  apply map_eq. intros a. apply option_eq. intros o.
  rewrite lookup_hide_Some. split; [by intros [_ Ho]|].
  intros Ho. split; [apply not_elem_of_empty | done].
Qed.

(** Allocating, and writing to a hidden address, keep what is
    visible. *)
Lemma hide_insert_subseteq X h a o :
  a ∈ X ∨ h !! a = None → hide X h ⊆ hide X (<[a := o]> h).
Proof.
  intros Ha. apply hide_subseteq_hide. intros b ob Hb Hob.
  split; [done|]. rewrite lookup_insert_ne; [done|].
  intros ->. destruct Ha as [Ha|Ha]; [done|congruence].
Qed.

Lemma hide_mono X h h' : h ⊆ h' → hide X h ⊆ hide X h'.
Proof. apply map_filter_subseteq_mono. Qed.

Lemma hide_union_subseteq X Y h : hide (X ∪ Y) h ⊆ hide X h.
Proof.
  apply hide_subseteq_hide. intros a o Ha Ho. split; [set_solver|done].
Qed.

Lemma for_each_take_S {A St : Type} (l : list A) (i : nat) (x : A)
  (init : St) (body : St → A → St) :
  l !! i = Some x →
  for_each (take (S i) l) init body = body (for_each (take i l) init body) x.
Proof. intros Hi. by rewrite (take_S_r _ _ _ Hi), for_each_snoc. Qed.

(** ** [get_fitting_classes] on the heap *)

(** With enough fuel, [get_fitting_classes] returns a new list that
    stands for the fitting classes of the request.  The addresses in [X]
    are in use but play no part: the arguments can be read without them,
    and so can the result. *)
Lemma get_fitting_classes_run (X : gset Heap.loc) h schedule sv new_class cv :
  X ⊆ dom h →
  Heap.schedule_at (hide X h) schedule = Some sv →
  Heap.request_at (hide X h) new_class = Some cv →
  ∃ fuel fitting h',
    Heap.get_fitting_classes fuel schedule new_class h
    = Some (fitting, h') ∧
    Heap.list_at Heap.class_at (hide X h') fitting
    = Some (get_fitting_classes sv cv).
Proof.
  intros HX Hsched Hreq.
  pose proof Hreq as (lo & Hc & (los & Hlo & Hlos)%list_at_Some)%request_at_Some.
  set (lf := fresh (dom h)).
  assert (h !! lf = None) as Hlf by apply fresh_lookup.
  assert (lf ∉ X) as HlfX.
  { intros Hin. apply HX in Hin. by apply not_elem_of_dom in Hlf. }
  set (h1 := <[lf := Heap.OList []]> h).
  set (Y := X ∪ {[lf]}).
  set (bodyv := λ (fitting_classes : list RealizedClass) time_option,
         if new_class_time_fits sv time_option
         then fitting_classes ++ [mkClass (uname cv) time_option]
         else fitting_classes).
  set (body := λ (fuel : nat) (_ : ()) (time_option : Heap.loc),
         b ← Heap.new_class_time_fits fuel schedule time_option;
         if b : bool
         then
           n ← Heap.get_name new_class;
           c ← Heap.alloc (Heap.OClass n time_option);
           Heap.list_append lf c
         else mret ()).
  set (I := λ (i : nat) (_ : ()) (hi : Heap.heap),
         hide X h ⊆ hide Y hi ∧ Y ⊆ dom hi ∧
         ∃ lfs, hi !! lf = Some (Heap.OList lfs) ∧
                Forall2 (λ x v, Heap.class_at (hide Y hi) x = Some v) lfs
                  (for_each (take i (time_options cv)) [] bodyv)).
  destruct (for_in_run body I lo los) with (k := length los) (i := 0%nat)
    (s := ()) (h := h1) as (fuel & [] & h' & Hrun & HI).
  - intros n n' [] x Hn. unfold body.
    apply below_bind; [by apply new_class_time_fits_fuel|].
    intros b. apply below_refl.
  - intros i [] hi (Hsub & _). eapply lookup_weaken; [|apply hide_subseteq].
    eapply lookup_weaken; [exact Hlo|exact Hsub].
  - intros i x [] hi Hi (Hsub & HY & lfs & Hlfs & Hacc).
    destruct (Forall2_lookup_l _ _ _ _ _ Hlos Hi) as (v & Hv & Hxv).
    assert (hide Y hi ⊆ hi) as Hsub' by apply hide_subseteq.
    destruct (new_class_time_fits_run hi schedule sv x v) as [f Hfits].
    { eapply stable_schedule_at; [|exact Hsched]. by etrans. }
    { eapply stable_times_at; [|exact Hxv]. by etrans. }
    set (acc := for_each (take i (time_options cv)) [] bodyv) in Hacc.
    assert (for_each (take (S i) (time_options cv)) [] bodyv
            = if new_class_time_fits sv v
              then acc ++ [mkClass (uname cv) v] else acc) as Hstep.
    { by rewrite (for_each_take_S _ _ _ _ _ Hv). }
    unfold I. rewrite Hstep. clear Hstep.
    destruct (new_class_time_fits sv v).
    + set (lc := fresh (dom hi)).
      assert (hi !! lc = None) as Hlc by apply fresh_lookup.
      assert (lc ∉ Y) as HlcY.
      { intros Hin. apply HY in Hin. by apply not_elem_of_dom in Hlc. }
      assert (lc ≠ lf) as Hne by congruence.
      set (hi1 := <[lc := Heap.OClass (uname cv) x]> hi).
      set (hi2 := <[lf := Heap.OList (lfs ++ [lc])]> hi1).
      assert (hide Y hi ⊆ hide Y hi2) as Hgrow.
      { etrans; [apply (hide_insert_subseteq Y hi lc); by right|].
        apply hide_insert_subseteq. left.
        apply elem_of_union. right. by apply elem_of_singleton. }
      exists f, (), hi2. split.
      * unfold body. run_step Hfits.
        assert (hi !! new_class = Some (Heap.OUnrealizedClass (uname cv) lo))
          as Hc'.
        { eapply lookup_weaken; [|exact Hsub']. by eapply lookup_weaken. }
        run_step (get_name_run _ _ _ _ Hc').
        run_step (alloc_run hi (Heap.OClass (uname cv) x)).
        apply list_append_run. unfold hi1. by rewrite lookup_insert_ne.
      * split_and!.
        -- by etrans.
        -- unfold hi2, hi1. rewrite !dom_insert_L.
           intros a Ha%HY. rewrite !elem_of_union. auto.
        -- exists (lfs ++ [lc]). split; [apply lookup_insert_eq|].
           apply Forall2_app.
           ++ eapply Forall2_impl; [exact Hacc|]. intros y w.
              by apply stable_class_at.
           ++ constructor; [|constructor]. apply class_at_Some.
              exists x. simpl. split.
              ** apply lookup_hide_Some. split; [done|].
                 unfold hi2, hi1.
                 by rewrite lookup_insert_ne, lookup_insert_eq.
              ** eapply stable_times_at; [|exact Hxv]. by etrans.
    + exists f, (), hi. split.
      * unfold body. by run_step Hfits.
      * split_and!; [done..|]. by exists lfs.
  - lia.
  - unfold I, h1. split_and!.
    + apply hide_subseteq_hide. intros a o Ha Ho.
      assert (a ≠ lf) by congruence.
      split; [|by rewrite lookup_insert_ne].
      unfold Y. by rewrite not_elem_of_union, not_elem_of_singleton.
    + rewrite dom_insert_L.
      intros a [Ha%HX| ->%elem_of_singleton]%elem_of_union;
        rewrite elem_of_union, elem_of_singleton; auto.
    + exists []. split; [apply lookup_insert_eq|]. constructor.
  - destruct HI as (Hsub & HY & lfs & Hlfs & Hacc).
    exists fuel, lf, h'. split.
    + unfold Heap.get_fitting_classes, Heap.list_new.
      run_step (alloc_run h (Heap.OList [])).
      assert (h1 !! new_class
              = Some (Heap.OUnrealizedClass (uname cv) lo)) as Hc1.
      { apply lookup_hide_Some in Hc as [_ Hc].
        unfold h1. rewrite lookup_insert_ne; [done|congruence]. }
      run_step (get_time_options_run _ _ _ _ Hc1).
      fold body. by run_step Hrun.
    + apply list_at_Some. exists lfs. split.
      * by apply lookup_hide_Some.
      * rewrite take_ge in Hacc
          by (by rewrite <- (Forall2_length _ _ _ Hlos)).
        eapply Forall2_impl; [exact Hacc|]. intros y w.
        apply stable_class_at, hide_union_subseteq.
Qed.

(** ** [build_schedules] on the heap *)

(** The body of the innermost loop: [new_schedules] gets one more item,
    a new list that stands for the schedule extended by the class. *)
Lemma extend_schedule_run h new_schedules items schedule sv fitting_class cv :
  h !! new_schedules = Some (Heap.OList items) →
  Heap.schedule_at (hide {[new_schedules]} h) schedule = Some sv →
  Heap.class_at (hide {[new_schedules]} h) fitting_class = Some cv →
  ∃ sum h',
    (copy ← Heap.list_copy schedule;
     single ← Heap.list_new [fitting_class];
     sum ← Heap.list_add copy single;
     Heap.list_append new_schedules sum) h = Some ((), h') ∧
    hide {[new_schedules]} h ⊆ hide {[new_schedules]} h' ∧
    h' !! new_schedules = Some (Heap.OList (items ++ [sum])) ∧
    Heap.schedule_at (hide {[new_schedules]} h') sum = Some (sv ++ [cv]).
Proof.
  intros Hns Hsched Hclass.
  pose proof Hsched as (sitems & Hs & Hsv)%list_at_Some.
  apply lookup_hide_Some in Hs as [_ Hs].
  set (X := {[new_schedules]} : gset Heap.loc) in *.
  set (copy := fresh (dom h)).
  set (h1 := <[copy := Heap.OList sitems]> h).
  set (single := fresh (dom h1)).
  set (h2 := <[single := Heap.OList [fitting_class]]> h1).
  set (sum := fresh (dom h2)).
  set (h3 := <[sum := Heap.OList (sitems ++ [fitting_class])]> h2).
  set (h4 := <[new_schedules := Heap.OList (items ++ [sum])]> h3).
  assert (h !! copy = None) as Hcopy by apply fresh_lookup.
  assert (h1 !! single = None) as Hsingle by apply fresh_lookup.
  assert (h2 !! sum = None) as Hsum by apply fresh_lookup.
  assert (h1 !! copy = Some (Heap.OList sitems)) as Hcopy1
    by apply lookup_insert_eq.
  assert (copy ≠ single) as Hne1 by congruence.
  assert (h2 !! copy = Some (Heap.OList sitems)) as Hcopy2.
  { unfold h2. by rewrite lookup_insert_ne. }
  assert (h2 !! single = Some (Heap.OList [fitting_class])) as Hsingle2
    by apply lookup_insert_eq.
  assert (new_schedules ≠ copy) as Hne2 by congruence.
  assert (h1 !! new_schedules = Some (Heap.OList items)) as Hns1.
  { unfold h1. by rewrite lookup_insert_ne. }
  assert (new_schedules ≠ single) as Hne3 by congruence.
  assert (h2 !! new_schedules = Some (Heap.OList items)) as Hns2.
  { unfold h2. by rewrite lookup_insert_ne. }
  assert (new_schedules ≠ sum) as Hne4 by congruence.
  assert (h3 !! new_schedules = Some (Heap.OList items)) as Hns3.
  { unfold h3. by rewrite lookup_insert_ne. }
  assert (hide X h ⊆ hide X h4) as Hgrow.
  { etrans; [apply (hide_insert_subseteq X h copy); by right|].
    etrans; [apply (hide_insert_subseteq X h1 single); by right|].
    etrans; [apply (hide_insert_subseteq X h2 sum); by right|].
    apply hide_insert_subseteq. left. by apply elem_of_singleton. }
  exists sum, h4. split_and!.
  - unfold Heap.list_copy, Heap.list_new, Heap.list_add.
    assert ((xs ← Heap.list_items schedule; Heap.alloc (Heap.OList xs)) h
            = Some (copy, h1)) as Hrun1.
    { by run_step (list_items_run _ _ _ Hs). }
    run_step Hrun1.
    run_step (alloc_run h1 (Heap.OList [fitting_class])).
    assert ((xs ← Heap.list_items copy; ys ← Heap.list_items single;
             Heap.alloc (Heap.OList (xs ++ ys))) h2 = Some (sum, h3))
      as Hrun3.
    { run_step (list_items_run _ _ _ Hcopy2).
      by run_step (list_items_run _ _ _ Hsingle2). }
    run_step Hrun3. by apply list_append_run.
  - done.
  - apply lookup_insert_eq.
  - apply list_at_Some. exists (sitems ++ [fitting_class]). split.
    + apply lookup_hide_Some. split.
      * by apply not_elem_of_singleton.
      * unfold h4, h3. by rewrite lookup_insert_ne, lookup_insert_eq.
    + apply Forall2_app.
      * eapply Forall2_impl; [exact Hsv|]. intros y w.
        by apply stable_class_at.
      * constructor; [|constructor]. by eapply stable_class_at.
Qed.

(** The body of the middle loop: [new_schedules] gets the extensions of
    one schedule by the fitting classes of the request, in order. *)
Lemma extend_by_request_run h new_schedules items acc schedule sv c cv :
  h !! new_schedules = Some (Heap.OList items) →
  Forall2 (λ x v, Heap.schedule_at (hide {[new_schedules]} h) x = Some v)
    items acc →
  Heap.schedule_at (hide {[new_schedules]} h) schedule = Some sv →
  Heap.request_at (hide {[new_schedules]} h) c = Some cv →
  ∃ fuel h' items',
    (fitting_classes ← Heap.get_fitting_classes fuel schedule c;
     Heap.for_in fuel fitting_classes 0 () (λ _ fitting_class,
       copy ← Heap.list_copy schedule;
       single ← Heap.list_new [fitting_class];
       sum ← Heap.list_add copy single;
       Heap.list_append new_schedules sum)) h = Some ((), h') ∧
    hide {[new_schedules]} h ⊆ hide {[new_schedules]} h' ∧
    h' !! new_schedules = Some (Heap.OList items') ∧
    Forall2 (λ x v, Heap.schedule_at (hide {[new_schedules]} h') x = Some v)
      items'
      (for_each (get_fitting_classes sv cv) acc (λ new_schedules fitting_class,
         new_schedules ++ [sv ++ [fitting_class]])).
Proof.
  intros Hns Hacc Hsched Hreq.
  set (X := {[new_schedules]} : gset Heap.loc) in *.
  assert (X ⊆ dom h) as HX.
  { intros a ->%elem_of_singleton. by apply elem_of_dom. }
  destruct (get_fitting_classes_run X h schedule sv c cv HX Hsched Hreq)
    as (f1 & lf & h1 & Hrun1 & Hfit).
  assert (h ⊆ h1) as Hsub1.
  { by eapply (preserves_get_fitting_classes h f1 schedule c h lf h1). }
  apply list_at_Some in Hfit as (fls & Hlf & Hfls).
  set (fitting := get_fitting_classes sv cv) in *.
  set (bodyv := λ (new_schedules : list Schedule) fitting_class,
         new_schedules ++ [sv ++ [fitting_class]]).
  set (body := λ (_ : nat) (_ : ()) (fitting_class : Heap.loc),
         copy ← Heap.list_copy schedule;
         single ← Heap.list_new [fitting_class];
         sum ← Heap.list_add copy single;
         Heap.list_append new_schedules sum).
  set (I := λ (m : nat) (_ : ()) (hm : Heap.heap),
         hide X h1 ⊆ hide X hm ∧
         ∃ its, hm !! new_schedules = Some (Heap.OList its) ∧
                Forall2 (λ x v, Heap.schedule_at (hide X hm) x = Some v) its
                  (for_each (take m fitting) acc bodyv)).
  destruct (for_in_run body I lf fls) with (k := length fls) (i := 0%nat)
    (s := ()) (h := h1) as (f2 & [] & h' & Hrun2 & Hsub & its & Hits & Hall).
  - intros n n' [] x _. apply below_refl.
  - intros m [] hm (Hsub & _). eapply lookup_weaken; [|apply hide_subseteq].
    eapply lookup_weaken; [exact Hlf|exact Hsub].
  - intros m x [] hm Hm (Hsub & its & Hits & Hall).
    destruct (Forall2_lookup_l _ _ _ _ _ Hfls Hm) as (v & Hv & Hxv).
    destruct (extend_schedule_run hm new_schedules its schedule sv x v)
      as (sum & hm' & Hrun & Hgrow & Hits' & Hsum); [done| | |].
    { eapply stable_schedule_at; [|exact Hsched].
      etrans; [by apply hide_mono|done]. }
    { by eapply stable_class_at. }
    exists 0%nat, (), hm'. split; [done|]. unfold I. split; [by etrans|].
    exists (its ++ [sum]). split; [done|].
    rewrite (for_each_take_S _ _ _ _ _ Hv). apply Forall2_app.
    + eapply Forall2_impl; [exact Hall|]. intros y w.
      by apply stable_schedule_at.
    + by repeat constructor.
  - lia.
  - unfold I. split; [done|]. exists items. split.
    + by eapply lookup_weaken.
    + eapply Forall2_impl; [exact Hacc|]. intros y w.
      by apply stable_schedule_at, hide_mono.
  - exists (Nat.max f1 f2), h', its. split_and!.
    + assert (Heap.get_fitting_classes (Nat.max f1 f2) schedule c h
              = Some (lf, h1)) as Hrun1'.
      { eapply get_fitting_classes_fuel; [|done]. lia. }
      run_step Hrun1'.
      eapply below_for_in; [| |exact Hrun2]; [lia|].
      intros [] x. apply below_refl.
    + etrans; [by apply hide_mono|done].
    + done.
    + rewrite take_ge in Hall
        by (by rewrite <- (Forall2_length _ _ _ Hfls)).
      done.
Qed.

(** The body of the outer loop: a new list that stands for the
    schedules of the next stage. *)
Lemma build_schedules_round_run h schedules scheds c cv :
  Heap.schedules_at h schedules = Some scheds →
  Heap.request_at h c = Some cv →
  ∃ fuel new_schedules h',
    (new_schedules ← Heap.list_new [];
     Heap.for_in fuel schedules 0 () (λ _ schedule,
       fitting_classes ← Heap.get_fitting_classes fuel schedule c;
       Heap.for_in fuel fitting_classes 0 () (λ _ fitting_class,
         copy ← Heap.list_copy schedule;
         single ← Heap.list_new [fitting_class];
         sum ← Heap.list_add copy single;
         Heap.list_append new_schedules sum));;
     mret new_schedules) h = Some (new_schedules, h') ∧
    h ⊆ h' ∧
    Heap.schedules_at h' new_schedules
    = Some (for_each scheds [] (λ new_schedules schedule,
              let fitting_classes := get_fitting_classes schedule cv in
              for_each fitting_classes new_schedules
                (λ new_schedules fitting_class,
                   new_schedules ++ [schedule ++ [fitting_class]]))).
Proof.
  intros Hscheds Hreq.
  pose proof Hscheds as (sls & Hsch & Hsls)%list_at_Some.
  set (ns := fresh (dom h)).
  assert (h !! ns = None) as Hns by apply fresh_lookup.
  set (h1 := <[ns := Heap.OList []]> h).
  set (X := {[ns]} : gset Heap.loc).
  assert (h ⊆ hide X h1) as Hsub1.
  { apply map_subseteq_spec. intros a o Ha. apply lookup_hide_Some.
    assert (a ≠ ns) by congruence.
    split; [by apply not_elem_of_singleton|].
    unfold h1. by rewrite lookup_insert_ne. }
  set (bodyv := λ (new_schedules : list Schedule) (schedule : Schedule),
         let fitting_classes := get_fitting_classes schedule cv in
         for_each fitting_classes new_schedules
           (λ new_schedules fitting_class,
              new_schedules ++ [schedule ++ [fitting_class]])).
  set (body := λ (fuel : nat) (_ : ()) (schedule : Heap.loc),
         fitting_classes ← Heap.get_fitting_classes fuel schedule c;
         Heap.for_in fuel fitting_classes 0 () (λ _ fitting_class,
           copy ← Heap.list_copy schedule;
           single ← Heap.list_new [fitting_class];
           sum ← Heap.list_add copy single;
           Heap.list_append ns sum)).
  set (I := λ (j : nat) (_ : ()) (hj : Heap.heap),
         h ⊆ hide X hj ∧
         ∃ its, hj !! ns = Some (Heap.OList its) ∧
                Forall2 (λ x v, Heap.schedule_at (hide X hj) x = Some v) its
                  (for_each (take j scheds) [] bodyv)).
  destruct (for_in_run body I schedules sls) with (k := length sls)
    (i := 0%nat) (s := ()) (h := h1)
    as (fuel & [] & h' & Hrun & Hsub & its & Hits & Hall).
  - intros n n' [] x Hn. unfold body.
    apply below_bind; [by apply get_fitting_classes_fuel|].
    intros lf. apply below_for_in; [done|]. intros [] y. apply below_refl.
  - intros j [] hj (Hsub & _). eapply lookup_weaken; [|apply hide_subseteq].
    eapply lookup_weaken; [exact Hsch|exact Hsub].
  - intros j x [] hj Hj (Hsub & its & Hits & Hall).
    destruct (Forall2_lookup_l _ _ _ _ _ Hsls Hj) as (v & Hv & Hxv).
    destruct (extend_by_request_run hj ns its
                (for_each (take j scheds) [] bodyv) x v c cv)
      as (f & hj' & its' & Hrun & Hgrow & Hits' & Hall'); [done..| | |].
    { by eapply stable_schedule_at. }
    { by eapply stable_request_at. }
    exists f, (), hj'. split; [done|]. unfold I. split; [by etrans|].
    exists its'. split; [done|].
    by rewrite (for_each_take_S _ _ _ _ _ Hv).
  - lia.
  - unfold I. split; [done|]. exists []. split; [apply lookup_insert_eq|].
    constructor.
  - exists fuel, ns, h'. split_and!.
    + unfold Heap.list_new. run_step (alloc_run h (Heap.OList [])).
      fold body. by run_step Hrun.
    + etrans; [done|apply hide_subseteq].
    + apply list_at_Some. exists its. split; [done|].
      rewrite take_ge in Hall by (by rewrite <- (Forall2_length _ _ _ Hsls)).
      eapply Forall2_impl; [exact Hall|]. intros y w.
      apply stable_schedule_at, hide_subseteq.
Qed.

(** With enough fuel, [build_schedules] on a heap that holds a list of
    requests returns a list that stands for [build_schedules] of those
    requests, in a heap that extends the one it started from. *)
Lemma build_schedules_run h class_options reqs :
  Heap.requests_at h class_options = Some reqs →
  ∃ fuel schedules h',
    Heap.build_schedules fuel class_options h = Some (schedules, h') ∧
    h ⊆ h' ∧
    Heap.schedules_at h' schedules = Some (build_schedules reqs).
Proof.
  intros Hreqs.
  pose proof Hreqs as (xs & Hl & Hxs)%list_at_Some.
  set (e := fresh (dom h)).
  assert (h !! e = None) as He by apply fresh_lookup.
  set (h1 := <[e := Heap.OList []]> h).
  set (s0 := fresh (dom h1)).
  assert (h1 !! s0 = None) as Hs0 by apply fresh_lookup.
  set (h2 := <[s0 := Heap.OList [e]]> h1).
  assert (h ⊆ h2) as Hsub2.
  { etrans; [by apply (insert_subseteq h e)|]. by apply insert_subseteq. }
  set (bodyv := λ (schedules : list Schedule) (c : UnrealizedClass),
         for_each schedules [] (λ new_schedules schedule,
           let fitting_classes := get_fitting_classes schedule c in
           for_each fitting_classes new_schedules
             (λ new_schedules fitting_class,
                new_schedules ++ [schedule ++ [fitting_class]]))).
  set (body := λ (fuel : nat) (schedules c : Heap.loc),
         new_schedules ← Heap.list_new [];
         Heap.for_in fuel schedules 0 () (λ _ schedule,
           fitting_classes ← Heap.get_fitting_classes fuel schedule c;
           Heap.for_in fuel fitting_classes 0 () (λ _ fitting_class,
             copy ← Heap.list_copy schedule;
             single ← Heap.list_new [fitting_class];
             sum ← Heap.list_add copy single;
             Heap.list_append new_schedules sum));;
         mret new_schedules).
  set (I := λ (k : nat) (schedules : Heap.loc) (hk : Heap.heap),
         h ⊆ hk ∧
         Heap.schedules_at hk schedules
         = Some (for_each (take k reqs) [[]] bodyv)).
  destruct (for_in_run body I class_options xs) with (k := length xs)
    (i := 0%nat) (s := s0) (h := h2)
    as (fuel & schedules & h' & Hrun & Hsub & Hres).
  - intros n n' s x Hn. unfold body.
    apply below_bind; [apply below_refl|]. intros ns.
    apply below_bind; [|intros; apply below_refl].
    apply below_for_in; [done|]. intros [] y.
    apply below_bind; [by apply get_fitting_classes_fuel|].
    intros lf. apply below_for_in; [done|]. intros [] z. apply below_refl.
  - intros k s hk (Hsub & _). by eapply lookup_weaken.
  - intros k x s hk Hk (Hsub & Hs).
    destruct (Forall2_lookup_l _ _ _ _ _ Hxs Hk) as (v & Hv & Hxv).
    destruct (build_schedules_round_run hk s _ x v Hs)
      as (f & ns & hk' & Hrun & Hgrow & Hns).
    { by eapply stable_request_at. }
    exists f, ns, hk'. split; [done|]. unfold I. split; [by etrans|].
    by rewrite (for_each_take_S _ _ _ _ _ Hv).
  - lia.
  - unfold I. split; [done|]. apply list_at_Some. exists [e]. split.
    + apply lookup_insert_eq.
    + constructor; [|constructor]. apply list_at_Some. exists []. split.
      * assert (s0 ≠ e) as Hne.
        { intros Heq. rewrite Heq in Hs0. unfold h1 in Hs0.
          by rewrite lookup_insert_eq in Hs0. }
        unfold h2, h1. rewrite lookup_insert_ne by done.
        apply lookup_insert_eq.
      * constructor.
  - exists fuel, schedules, h'. split_and!; [|done|].
    + unfold Heap.build_schedules, Heap.list_new.
      run_step (alloc_run h (Heap.OList [])).
      run_step (alloc_run h1 (Heap.OList [e])).
      exact Hrun.
    + rewrite take_ge in Hres by (by rewrite <- (Forall2_length _ _ _ Hxs)).
      done.
Qed.

(** On the sample heap the call returns the one schedule of
    [touching_requests] with fuel 3; the list of requests has two items,
    and fuel 2 does not let the outer loop see its end. *)
Example heap_build_schedules_touching :
  (Heap.build_schedules 3 14 touching_heap
     ≫= λ '(schedules, h'), Heap.schedules_at h' schedules)
  = Some [touching_schedule] ∧
  Heap.build_schedules 2 14 touching_heap = None.
Proof. split; vm_compute; reflexivity. Qed.

(** C9.  On a heap that holds the list of requests, [build_schedules]
    returns (with enough fuel for its loops), and however much fuel lets
    it return: every object of the heap it was called on is unchanged
    afterwards, so the requests, their options and their class times read
    as before; and the list returned stands for [build_schedules] of the
    requests, a function of the values alone. *)
Theorem build_schedules_leaves_input_unchanged
  (h : Heap.heap) (class_options : Heap.loc) (reqs : list UnrealizedClass) :
  Heap.requests_at h class_options = Some reqs →
  (∃ fuel schedules h',
     Heap.build_schedules fuel class_options h = Some (schedules, h')) ∧
  (∀ fuel schedules h',
     Heap.build_schedules fuel class_options h = Some (schedules, h') →
     (∀ l o, h !! l = Some o → h' !! l = Some o) ∧
     Heap.requests_at h' class_options = Some reqs ∧
     Heap.schedules_at h' schedules = Some (build_schedules reqs)).
Proof.
  intros Hreqs.
  destruct (build_schedules_run h class_options reqs Hreqs)
    as (fuel0 & schedules0 & h0 & Hrun0 & _ & Hres0).
  split; [by exists fuel0, schedules0, h0|].
  intros fuel schedules h' Hrun.
  assert (h ⊆ h') as Hsub.
  { by eapply (preserves_build_schedules h fuel class_options h). }
  split_and!.
  - intros l o Hl. by eapply lookup_weaken.
  - by eapply stable_requests_at.
  - assert (Heap.build_schedules (Nat.max fuel fuel0) class_options h
            = Some (schedules, h')) as Hmax.
    { eapply build_schedules_fuel; [|done]. lia. }
    assert (Heap.build_schedules (Nat.max fuel fuel0) class_options h
            = Some (schedules0, h0)) as Hmax0.
    { eapply build_schedules_fuel; [|done]. lia. }
    rewrite Hmax in Hmax0. by injection Hmax0 as -> ->.
Qed.

Lemma build_schedules_leaves_input_unchanged_witness :
  (∃ fuel schedules h',
     Heap.build_schedules fuel 14 touching_heap = Some (schedules, h')) ∧
  (∀ fuel schedules h',
     Heap.build_schedules fuel 14 touching_heap = Some (schedules, h') →
     (∀ l o, touching_heap !! l = Some o → h' !! l = Some o) ∧
     Heap.requests_at h' 14 = Some touching_requests ∧
     Heap.schedules_at h' schedules
     = Some (build_schedules touching_requests)).
Proof.
  apply (build_schedules_leaves_input_unchanged touching_heap 14
           touching_requests).
  vm_compute. reflexivity.
Defined.

(** ** Further properties of [overlaps] *)

(** X1.  A block overlaps itself exactly when its start is not after
    its end. *)
Theorem overlaps_self (a : ClassTime) :
  overlaps a a = true ↔ well_formed a.
Proof.
  rewrite overlaps_true. unfold well_formed. split.
  - intros [_ H]. lia.
  - intros H. split; [done|lia].
Qed.

Lemma overlaps_malformed_false (self other : ClassTime) :
  ¬ well_formed other → overlaps self other = false.
Proof.
  unfold well_formed. intros Hbad. apply not_true_iff_false.
  rewrite overlaps_true. intros [_ H]. lia.
Qed.

(** X2.  Nothing overlaps a block whose start is after its end, when
    that block is the argument of [overlaps]. *)
Theorem overlaps_malformed_argument (self other : ClassTime) :
  ¬ well_formed other → overlaps self other = false.
Proof. apply overlaps_malformed_false. Qed.

Lemma overlaps_malformed_argument_witness :
  overlaps mon_0900_1000
    (mkClassTime Day.MON (Time.make 10 0) (Time.make 9 30)) = false.
Proof.
  apply overlaps_malformed_argument. unfold well_formed. simpl. lia.
Defined.

(** X3.  Blocks on different days do not overlap, whatever their
    times. *)
Theorem overlaps_different_days (a b : ClassTime) :
  day a ≠ day b → overlaps a b = false.
Proof. apply overlaps_other_day. Qed.

Lemma overlaps_different_days_witness :
  overlaps mon_0900_1000 tues_0900_1000 = false.
Proof. apply overlaps_different_days. discriminate. Defined.

(** X4.  For two blocks with start not after end, [overlaps] answers
    true in at least one argument order exactly when they are on the
    same day and their closed time ranges meet. *)
Theorem overlaps_some_order_iff_ranges_meet (a b : ClassTime) :
  well_formed a → well_formed b →
  overlaps a b = true ∨ overlaps b a = true ↔
  day a = day b ∧
  Time.mins (start_time a) ≤ Time.mins (end_time b) ∧
  Time.mins (start_time b) ≤ Time.mins (end_time a).
Proof. apply overlaps_either_order. Qed.

Lemma overlaps_some_order_iff_ranges_meet_witness :
  overlaps mon_0900_1200 mon_1000_1100 = true ∨
  overlaps mon_1000_1100 mon_0900_1200 = true ↔
  day mon_0900_1200 = day mon_1000_1100 ∧
  Time.mins (start_time mon_0900_1200)
    ≤ Time.mins (end_time mon_1000_1100) ∧
  Time.mins (start_time mon_1000_1100)
    ≤ Time.mins (end_time mon_0900_1200).
Proof.
  apply overlaps_some_order_iff_ranges_meet;
    unfold well_formed; simpl; lia.
Defined.

(** X5.  On one day, for two blocks with start not after end, the two
    argument orders of [overlaps] disagree exactly when one block
    strictly contains the other: the outer block as receiver answers
    false, the inner one true. *)
Theorem overlaps_disagrees_iff_strictly_contains (a b : ClassTime) :
  day a = day b → well_formed a → well_formed b →
  overlaps a b = false ∧ overlaps b a = true ↔ strictly_contains a b.
Proof.
  unfold well_formed, strictly_contains. intros Hd Ha Hb. split.
  - intros [Hab Hba]. by apply overlaps_one_order_only.
  - intros [Hs He]. split.
    + apply not_true_iff_false. rewrite overlaps_true. intros [_ H]. lia.
    + apply overlaps_true. split; [done|]. lia.
Qed.

Lemma overlaps_disagrees_iff_strictly_contains_witness :
  overlaps mon_0900_1200 mon_1000_1100 = false ∧
  overlaps mon_1000_1100 mon_0900_1200 = true ↔
  strictly_contains mon_0900_1200 mon_1000_1100.
Proof.
  apply overlaps_disagrees_iff_strictly_contains;
    [reflexivity | unfold well_formed; simpl; lia..].
Defined.

(** ** Further properties of the builder *)

Lemma new_class_time_fits_app_l (p q : Schedule) (o : list ClassTime) :
  new_class_time_fits (p ++ q) o
  = new_class_time_fits p o && new_class_time_fits q o.
Proof.
  apply eq_true_iff_eq.
  rewrite andb_true_iff, !new_class_time_fits_true.
  setoid_rewrite elem_of_app. split.
  - intros H. split; intros c t nt Hc; apply H; auto.
  - intros [Hp Hq] c t nt [Hc|Hc]; [by apply (Hp c)|by apply (Hq c)].
Qed.

Lemma new_class_time_fits_app_r (p : Schedule) (o1 o2 : list ClassTime) :
  new_class_time_fits p (o1 ++ o2)
  = new_class_time_fits p o1 && new_class_time_fits p o2.
Proof.
  apply eq_true_iff_eq.
  rewrite andb_true_iff, !new_class_time_fits_true.
  setoid_rewrite elem_of_app. split.
  - intros H. split; intros c t nt Hc Ht Hnt; apply (H c); auto.
  - intros [H1 H2] c t nt Hc Ht [Hnt|Hnt]; [by apply (H1 c)|by apply (H2 c)].
Qed.

(** X6.  [new_class_time_fits] checks the new blocks one by one against
    the scheduled classes one by one: the answer for a schedule in two
    parts, or for new times in two parts, is the conjunction of the
    answers for the parts; and an empty schedule fits everything. *)
Theorem new_class_time_fits_by_parts :
  (∀ new_times, new_class_time_fits [] new_times = true) ∧
  (∀ (p q : Schedule) new_times,
     new_class_time_fits (p ++ q) new_times
     = new_class_time_fits p new_times && new_class_time_fits q new_times) ∧
  (∀ (schedule : Schedule) o1 o2,
     new_class_time_fits schedule (o1 ++ o2)
     = new_class_time_fits schedule o1 && new_class_time_fits schedule o2).
Proof.
  split_and!.
  - intros new_times. apply new_class_time_fits_true.
    intros c t nt Hc. by inversion Hc.
  - apply new_class_time_fits_app_l.
  - apply new_class_time_fits_app_r.
Qed.

(** X7.  An option all of whose blocks have their start after their end
    fits every schedule. *)
Theorem malformed_option_always_fits (schedule : Schedule)
  (new_times : list ClassTime) :
  Forall (λ t, ¬ well_formed t) new_times →
  new_class_time_fits schedule new_times = true.
Proof.
  intros Hbad. apply new_class_time_fits_true. intros c t nt _ _ Hnt.
  apply overlaps_malformed_false.
  by apply (proj1 (Forall_forall _ _) Hbad).
Qed.

Lemma malformed_option_always_fits_witness :
  new_class_time_fits [mkClass "Seminar" [mon_0900_1200]]
    [mkClassTime Day.MON (Time.make 10 0) (Time.make 9 30)] = true.
Proof.
  apply malformed_option_always_fits. constructor; [|constructor].
  unfold well_formed. simpl. lia.
Defined.

(** X8.  The schedules returned are exactly the combinations of one
    option per request, in request order and under the request's name,
    in which no block of a selection overlaps, as receiver of
    [overlaps], a block of a later selection. *)
Theorem build_schedules_returns_exactly
  (class_options : list UnrealizedClass) (schedule : Schedule) :
  schedule ∈ build_schedules class_options ↔
  Forall2 (λ r s, name s = uname r ∧ times s ∈ time_options r)
    class_options schedule ∧
  ∀ (i j : nat) ci cj t1 t2,
    (i < j)%nat → schedule !! i = Some ci → schedule !! j = Some cj →
    t1 ∈ times ci → t2 ∈ times cj → overlaps t1 t2 = false.
Proof.
  rewrite elem_of_build_schedules. unfold combination, earlier_clear.
  split; intros [Hcomb Hclear]; (split; [exact Hcomb|]).
  - intros i j ci cj t1 t2 Hij Hi Hj. by apply (Hclear i j ci cj).
  - intros i j ci cj Hij Hi Hj t1 t2. by apply (Hclear i j ci cj).
Qed.

(** X9.  A returned schedule has one class per request: as many
    classes as requests, with the names of the requests in request
    order. *)
Theorem build_schedules_one_class_per_request
  (class_options : list UnrealizedClass) (schedule : Schedule) :
  schedule ∈ build_schedules class_options →
  length schedule = length class_options ∧
  name <$> schedule = uname <$> class_options.
Proof.
  intros [Hcomb _]%elem_of_build_schedules. split.
  - symmetry. by eapply Forall2_length.
  - induction Hcomb as [|r s rs ss [Hname _] _ IH]; [done|].
    csimpl. by rewrite Hname, IH.
Qed.

Lemma build_schedules_one_class_per_request_witness :
  length touching_schedule = length touching_requests ∧
  name <$> touching_schedule = uname <$> touching_requests.
Proof.
  apply build_schedules_one_class_per_request.
  apply (bool_decide_unpack _). vm_compute. exact I.
Defined.

(** X10.  For a returned schedule whose blocks all have start not after
    end, the no-conflict property holds exactly when no block of a
    selection strictly contains a block of a later selection on the same
    day.  Blocks on different days do not count, whatever their clock
    times. *)
Theorem build_schedules_conflict_free_unless_contained
  (class_options : list UnrealizedClass) (schedule : Schedule) :
  schedule ∈ build_schedules class_options →
  (∀ c t, c ∈ schedule → t ∈ times c → well_formed t) →
  (conflict_free schedule ↔
   ∀ (i j : nat) ci cj t1 t2,
     (i < j)%nat → schedule !! i = Some ci → schedule !! j = Some cj →
     t1 ∈ times ci → t2 ∈ times cj →
     day t1 = day t2 → ¬ strictly_contains t1 t2).
Proof.
  intros [_ Hclear]%elem_of_build_schedules Hwf. split.
  - intros Hfree i j ci cj t1 t2 Hij Hi Hj H1 H2 Hday [Hs He].
    assert (overlaps t2 t1 = true) as Hov.
    { apply overlaps_true. split; [done|]. left.
      assert (well_formed t2) as Hw2
        by (apply (Hwf cj); [by eapply list_elem_of_lookup_2|done]).
      unfold well_formed in Hw2. lia. }
    rewrite (Hfree j i cj ci) in Hov; [done|lia|done..].
  - intros Hnc i j ci cj Hij Hi Hj t1 t2 H1 H2.
    destruct (decide (i < j)%nat) as [Hlt|Hge].
    { by apply (Hclear i j ci cj). }
    assert (j < i)%nat as Hlt by lia.
    destruct (overlaps t1 t2) eqn:Hov; [|done]. exfalso.
    assert (day t2 = day t1) as Hday.
    { apply overlaps_true in Hov as [Hday _]. done. }
    apply (Hnc j i cj ci t2 t1 Hlt Hj Hi H2 H1 Hday).
    apply overlaps_one_order_only; [| | |done].
    + apply (Hwf cj); [|done]. by eapply list_elem_of_lookup_2.
    + apply (Hwf ci); [|done]. by eapply list_elem_of_lookup_2.
    + by apply (Hclear j i cj ci).
Qed.

Lemma build_schedules_conflict_free_unless_contained_witness :
  strictly_contains mon_0900_1200
    (mkClassTime Day.TUES (Time.make 10 0) (Time.make 11 0)) ∧
  conflict_free
    [mkClass "Seminar" [mon_0900_1200];
     mkClass "Lab" [mkClassTime Day.TUES (Time.make 10 0) (Time.make 11 0)]] ∧
  conflict_free touching_schedule.
Proof.
  split_and!.
  - unfold strictly_contains. simpl. lia.
  - apply (build_schedules_conflict_free_unless_contained
             [mkUnrealizedClass "Seminar" [[mon_0900_1200]];
              mkUnrealizedClass "Lab"
                [[mkClassTime Day.TUES (Time.make 10 0) (Time.make 11 0)]]]).
    + apply (bool_decide_unpack _). vm_compute. exact I.
    + intros c t Hc Ht. unfold well_formed.
      repeat (apply elem_of_cons in Hc as [->|Hc];
              [apply list_elem_of_singleton in Ht as ->; simpl; lia|]).
      by inversion Hc.
    + intros i j ci cj t1 t2 Hij Hi Hj H1 H2 Hday _.
      destruct i as [|[|i]], j as [|[|j]]; simplify_eq/=; try lia.
      apply list_elem_of_singleton in H1 as ->.
      apply list_elem_of_singleton in H2 as ->. simpl in *. done.
  - apply (build_schedules_conflict_free_unless_contained touching_requests).
    + apply (bool_decide_unpack _). vm_compute. exact I.
    + intros c t Hc Ht. unfold well_formed.
      repeat (apply elem_of_cons in Hc as [->|Hc];
              [apply list_elem_of_singleton in Ht as ->; simpl; lia|]).
      by inversion Hc.
    + intros i j ci cj t1 t2 Hij Hi Hj H1 H2 _ [Hs He].
      destruct i as [|[|i]], j as [|[|j]]; simplify_eq/=; try lia.
      apply list_elem_of_singleton in H1 as ->.
      apply list_elem_of_singleton in H2 as ->. simpl in *. lia.
Defined.

Lemma extensions_all_fit (c : UnrealizedClass) (p : Schedule) :
  (∀ o, o ∈ time_options c → new_class_time_fits p o = true) →
  extensions c p = (λ o, p ++ [mkClass (uname c) o]) <$> time_options c.
Proof.
  intros Hfit. unfold extensions. f_equal.
  induction (time_options c) as [|o l IH]; [done|].
  rewrite filter_cons. rewrite decide_True by (apply Hfit; left).
  f_equal. apply IH. intros o' Ho'. apply Hfit. by right.
Qed.

Lemma length_bind_const {A B : Type} (f : A → list B) (l : list A) (k : nat) :
  (∀ x, x ∈ l → length (f x) = k) → length (l ≫= f) = (length l * k)%nat.
Proof.
  induction l as [|x l IH]; intros Hf; csimpl; [done|].
  rewrite length_app, (Hf x) by left. rewrite IH; [lia|].
  intros y Hy. apply Hf. by right.
Qed.

(** X11.  When no block of a request overlaps, as receiver, a block of
    a later request, nothing is filtered out: the number of schedules
    returned is the product of the numbers of options. *)
Theorem build_schedules_full_product (class_options : list UnrealizedClass) :
  (∀ (i j : nat) ci cj t1 t2,
     (i < j)%nat → class_options !! i = Some ci →
     class_options !! j = Some cj →
     t1 ∈ request_blocks ci → t2 ∈ request_blocks cj →
     overlaps t1 t2 = false) →
  length (build_schedules class_options) = options_product class_options.
Proof.
  induction class_options as [|c cs IH] using rev_ind; intros Hfree.
  { reflexivity. }
  rewrite build_schedules_snoc, options_product_snoc.
  rewrite (length_bind_const _ _ (length (time_options c))).
  - rewrite IH; [done|]. intros i j ci cj t1 t2 Hij Hi Hj.
    apply (Hfree i j ci cj t1 t2 Hij); by apply lookup_app_l_Some.
  - intros p Hp. rewrite extensions_all_fit; [by rewrite length_fmap|].
    intros o Ho. apply new_class_time_fits_true.
    intros s t nt Hs Ht Hnt.
    apply elem_of_build_schedules in Hp as [Hcomb _].
    apply list_elem_of_lookup in Hs as [i Hi].
    destruct (Forall2_lookup_r _ _ _ _ _ Hcomb Hi) as (r & Hr & _ & Hopt).
    apply (Hfree i (length cs) r c t nt).
    + by apply lookup_lt_Some in Hr.
    + by apply lookup_app_l_Some.
    + by rewrite list_lookup_middle.
    + apply list_elem_of_join. eauto.
    + apply list_elem_of_join. eauto.
Qed.

Lemma build_schedules_full_product_witness :
  length (build_schedules
            [mkUnrealizedClass "R1" [[mon_0900_1000]; [mon_1000_1100]];
             mkUnrealizedClass "R2" [[tues_0900_1000]]])
  = options_product
      [mkUnrealizedClass "R1" [[mon_0900_1000]; [mon_1000_1100]];
       mkUnrealizedClass "R2" [[tues_0900_1000]]].
Proof.
  apply build_schedules_full_product.
  intros i j ci cj t1 t2 Hij Hi Hj H1 H2.
  destruct i as [|[|i]], j as [|[|j]]; simplify_eq/=; try lia.
  apply list_elem_of_singleton in H2 as ->.
  repeat (apply elem_of_cons in H1 as [->|H1]; [reflexivity|]).
  by inversion H1.
Defined.

(** X12.  For a single request every option is returned, in option
    order, as a schedule of one class: nothing is checked inside an
    option. *)
Theorem build_schedules_single_request (c : UnrealizedClass) :
  build_schedules [c] = (λ o, [mkClass (uname c) o]) <$> time_options c.
Proof.
  change [c] with ([] ++ [c]).
  rewrite build_schedules_snoc, build_schedules_nil, bind_singleton.
  apply extensions_all_fit. intros o _.
  apply new_class_time_fits_true. intros s t nt Hs. by inversion Hs.
Qed.

Lemma earlier_clear_take (schedule : Schedule) (n : nat) :
  earlier_clear schedule → earlier_clear (take n schedule).
Proof.
  intros H i j ci cj Hij Hi Hj.
  apply lookup_take_Some in Hi as [Hi _].
  apply lookup_take_Some in Hj as [Hj _]. by apply (H i j).
Qed.

(** X13.  Requests are placed one after the other and never revisited:
    the first classes of a schedule returned for a list of requests
    form a schedule returned for the first requests alone, and once no
    schedule is left, further requests return none. *)
Theorem build_schedules_prefix (class_options more : list UnrealizedClass) :
  (∀ schedule,
     schedule ∈ build_schedules (class_options ++ more) →
     take (length class_options) schedule ∈ build_schedules class_options) ∧
  (build_schedules class_options = [] →
   build_schedules (class_options ++ more) = []).
Proof.
  assert (∀ schedule,
    schedule ∈ build_schedules (class_options ++ more) →
    take (length class_options) schedule ∈ build_schedules class_options)
    as Hprefix.
  { intros schedule [Hcomb Hclear]%elem_of_build_schedules.
    apply elem_of_build_schedules. split; [|by apply earlier_clear_take].
    apply Forall2_app_inv_l in Hcomb as (k1 & k2 & Hk1 & _ & ->).
    rewrite (Forall2_length _ _ _ Hk1), take_app_length. exact Hk1. }
  split; [exact Hprefix|]. intros Hnone.
  destruct (build_schedules (class_options ++ more)) as [|s l] eqn:Hb; [done|].
  specialize (Hprefix s ltac:(left)). rewrite Hnone in Hprefix.
  by inversion Hprefix.
Qed.

(** ** The clock *)

(** X14.  The comparisons of [Time] agree with each other: [a <= b]
    holds exactly when [b < a] does not, [a >= b] exactly when [a < b]
    does not, and [a == b] exactly when [a <= b] and [b <= a]; of
    [a < b], [a == b] and [b < a] exactly one holds. *)
Theorem Time_comparisons_agree (a b : Time.t) :
  Time.le a b = negb (Time.lt b a) ∧
  Time.ge a b = negb (Time.lt a b) ∧
  Time.eq a b = Time.le a b && Time.le b a ∧
  (Time.lt a b = true ∧ Time.eq a b = false ∧ Time.lt b a = false ∨
   Time.lt a b = false ∧ Time.eq a b = true ∧ Time.lt b a = false ∨
   Time.lt a b = false ∧ Time.eq a b = false ∧ Time.lt b a = true).
Proof.
  unfold Time.ge, Time.le, Time.lt, Time.eq.
  destruct (Z.ltb_spec (Time.mins a) (Time.mins b)),
    (Z.ltb_spec (Time.mins b) (Time.mins a)),
    (Z.eqb_spec (Time.mins a) (Time.mins b)),
    (Z.eqb_spec (Time.mins b) (Time.mins a));
    simpl; try lia; tauto.
Qed.

(** X15.  The clock arithmetic works on total minutes: hours and
    minutes add and scale componentwise, a time built from hours and
    minutes is the sum of its parts, addition is commutative and
    associative, and scaling distributes over addition. *)
Theorem Time_arithmetic (h1 m1 h2 m2 i : Z) (a b c : Time.t) :
  Time.add (Time.make h1 m1) (Time.make h2 m2)
  = Time.make (h1 + h2) (m1 + m2) ∧
  Time.mul (Time.make h1 m1) i = Time.make (h1 * i) (m1 * i) ∧
  Time.make h1 m1 = Time.add (Time.make h1 0) (Time.make 0 m1) ∧
  Time.add a b = Time.add b a ∧
  Time.add (Time.add a b) c = Time.add a (Time.add b c) ∧
  Time.mul (Time.add a b) i = Time.add (Time.mul a i) (Time.mul b i).
Proof.
  destruct a as [x], b as [y], c as [z].
  unfold Time.add, Time.mul, Time.make. simpl.
  split_and!; f_equal; lia.
Qed.

(** ** [Time.__str__] *)

Lemma format_02_two_digits (n : Z) :
  0 ≤ n < 100 →
  format_02 n = two_digits n.
Proof.
  intros Hn. assert (n ∈ seqZ 0 100) as Hin by (apply elem_of_seqZ; lia).
  clear Hn. revert n Hin. apply Forall_forall.
  apply (bool_decide_unpack _). vm_compute. exact I.
Qed.

(** X16.  A time of [h] hours and [m] minutes, with [h] below 100 and
    [m] below 60, prints as [HH:MM]: two decimal digits for the hours, a
    colon, two decimal digits for the minutes.  Hours are not reduced
    modulo 24. *)
Theorem Time_str_hh_mm (h m : Z) :
  0 ≤ h < 100 → 0 ≤ m < 60 →
  Time_str (Time.make h m) = two_digits h +:+ ":" +:+ two_digits m.
Proof.
  intros Hh Hm. unfold Time_str, Time.make. simpl.
  assert ((h * 60 + m) `div` 60 = h) as ->.
  { symmetry. apply (Z.div_unique_pos _ _ _ m); lia. }
  assert ((h * 60 + m) `mod` 60 = m) as ->.
  { symmetry. apply (Z.mod_unique_pos _ _ h); lia. }
  rewrite !format_02_two_digits by lia. reflexivity.
Qed.

Lemma Time_str_hh_mm_witness :
  Time_str (Time.make 9 5) = two_digits 9 +:+ ":" +:+ two_digits 5.
Proof. apply Time_str_hh_mm; lia. Defined.

Lemma string_app_inj_suffix (s1 s2 t1 t2 : string) :
  String.length t1 = String.length t2 →
  s1 +:+ t1 = s2 +:+ t2 → s1 = s2 ∧ t1 = t2.
Proof.
  assert (∀ s t, String.length (s +:+ t)
                 = (String.length s + String.length t)%nat) as Hlen.
  { intros s t. induction s as [|c s IH]; [done|].
    change (S (String.length (s +:+ t))
            = (S (String.length s) + String.length t)%nat).
    by rewrite IH. }
  intros Ht. revert s2. induction s1 as [|c s1 IH]; intros [|c2 s2] Heq.
  - done.
  - change (t1 = String c2 (s2 +:+ t2)) in Heq. subst t1.
    change (S (String.length (s2 +:+ t2)) = String.length t2) in Ht.
    rewrite Hlen in Ht. lia.
  - change (String c (s1 +:+ t1) = t2) in Heq. subst t2.
    change (String.length t1 = S (String.length (s1 +:+ t1))) in Ht.
    rewrite Hlen in Ht. lia.
  - change (String c (s1 +:+ t1) = String c2 (s2 +:+ t2)) in Heq.
    injection Heq as -> Heq. by apply IH in Heq as [-> ->].
Qed.

Lemma pretty_N_go_first (x : N) (s : string) :
  (0 < x)%N →
  ∃ c r, pretty_N_go x s = String c r ∧ c ≠ Ascii.ascii_of_nat 48.
Proof.
  revert s. induction (N.lt_wf_0 x) as [x _ IH]. intros s Hx.
  rewrite pretty_N_go_step by done.
  destruct (decide (x < 10)%N) as [Hlt|Hge].
  - rewrite N.div_small, pretty_N_go_0 by done.
    rewrite N.mod_small by done. eexists _, _. split; [done|].
    assert (∃ k : nat, x = N.of_nat k ∧ (0 < k < 10)%nat) as (k & -> & Hk).
    { exists (N.to_nat x). lia. }
    do 10 (destruct k as [|k]; [try lia; done|]). lia.
  - apply IH.
    + apply N.div_lt; lia.
    + apply N.div_str_pos. lia.
Qed.

Lemma pretty_pos_first (p : positive) :
  ∃ c r, pretty (Z.pos p) = String c r ∧ c ≠ Ascii.ascii_of_nat 48.
Proof.
  unfold pretty, pretty_Z, pretty, pretty_positive, pretty, pretty_N.
  rewrite decide_False by done. apply pretty_N_go_first. lia.
Qed.

Lemma format_02_inj (x y : Z) : format_02 x = format_02 y → x = y.
Proof.
  assert (∀ u v : Z, (String.length (pretty u) < 2)%nat →
                 ¬ (String.length (pretty v) < 2)%nat →
                 "0" +:+ pretty u ≠ pretty v) as Hpad.
  { intros u v Hu Hv Heq. destruct v as [|p|p].
    - apply Hv. simpl. lia.
    - destruct (pretty_pos_first p) as (c & r & Hp & Hc).
      rewrite Hp in Heq. change (String (Ascii.ascii_of_nat 48) (pretty u)
                                 = String c r) in Heq.
      injection Heq as Hc' _. by apply Hc.
    - change (String (Ascii.ascii_of_nat 48) (pretty u)
              = String (Ascii.ascii_of_nat 45) (pretty p)) in Heq.
      discriminate. }
  unfold format_02. cbv zeta.
  destruct (Nat.ltb_spec (String.length (pretty x)) 2),
    (Nat.ltb_spec (String.length (pretty y)) 2); intros Heq.
  - simpl in Heq. injection Heq as Heq. by apply (inj pretty).
  - by edestruct (Hpad x y); [| |done]; lia.
  - by edestruct (Hpad y x); [| |done]; lia.
  - by apply (inj pretty).
Qed.

(** X17.  Different times print differently, negative and beyond a day
    included: the text of [Time.__str__] determines the minute count. *)
Theorem Time_str_inj (a b : Time.t) : Time_str a = Time_str b → a = b.
Proof.
  destruct a as [x], b as [y]. unfold Time_str. simpl. intros Heq.
  assert (∀ z, String.length (":" +:+ format_02 (z `mod` 60)) = 3%nat)
    as Hlen.
  { intros z. rewrite format_02_two_digits; [done|].
    pose proof (Z.mod_pos_bound z 60). lia. }
  apply string_app_inj_suffix in Heq as [Hh Hm]; [|by rewrite !Hlen].
  apply format_02_inj in Hh. injection Hm as Hm%format_02_inj.
  f_equal. rewrite (Z.div_mod x 60), (Z.div_mod y 60) by lia. congruence.
Qed.

Lemma Time_str_inj_witness : Time.make 9 5 = Time.make 8 65.
Proof. apply Time_str_inj. vm_compute. reflexivity. Defined.

(** ** The option builders *)

Lemma map_fmap_eq {A B : Type} (f : A → B) (l : list A) : map f l = f <$> l.
Proof. induction l as [|x l IH]; [done|]. simpl. by rewrite IH. Qed.

Lemma multi_day_same_time_fmap (days : list string)
  (start_times : list Time.t) (duration : Time.t) :
  multi_day_same_time days start_times duration
  = (λ st, (λ d, mkClassTime d st (Time.add st duration)) <$> days)
      <$> start_times.
Proof.
  unfold multi_day_same_time. rewrite map_fmap_eq.
  apply list_fmap_ext. intros _ st _. apply map_fmap_eq.
Qed.

(** [multi_times] is [multi_day_same_time] for a single day. *)
Lemma multi_times_single_day (d : string) (start_times : list Time.t)
  (duration : Time.t) :
  multi_times d start_times duration
  = multi_day_same_time [d] start_times duration.
Proof. reflexivity. Qed.

(** X18.  [multi_day_same_time] returns one option per start time, in
    order; the option for a start time has one block per day, in the
    order of the days, each from that start time to the start time plus
    the duration. *)
Theorem multi_day_same_time_shape (days : list string)
  (start_times : list Time.t) (duration : Time.t) :
  length (multi_day_same_time days start_times duration)
  = length start_times ∧
  ∀ (i : nat) st, start_times !! i = Some st →
    ∃ o, multi_day_same_time days start_times duration !! i = Some o ∧
         day <$> o = days ∧
         Forall (λ t, start_time t = st ∧
                      Time.mins (end_time t)
                      = Time.mins st + Time.mins duration) o.
Proof.
  rewrite multi_day_same_time_fmap. split; [apply length_fmap|].
  intros i st Hi. eexists. split.
  - rewrite list_lookup_fmap, Hi. reflexivity.
  - split.
    + rewrite <- list_fmap_compose. apply list_fmap_id.
    + apply Forall_fmap, Forall_true. intros d. simpl. split; [done|lia].
Qed.

(** X19.  The blocks the option builders make have their start not
    after their end exactly when the duration is not negative. *)
Theorem multi_day_same_time_well_formed (days : list string)
  (start_times : list Time.t) (duration : Time.t) :
  Forall (Forall (λ t, well_formed t ↔ 0 ≤ Time.mins duration))
    (multi_day_same_time days start_times duration) ∧
  ∀ d, Forall (Forall (λ t, well_formed t ↔ 0 ≤ Time.mins duration))
         (multi_times d start_times duration).
Proof.
  assert (∀ ds, Forall (Forall (λ t, well_formed t ↔ 0 ≤ Time.mins duration))
                  (multi_day_same_time ds start_times duration)) as H.
  { intros ds. rewrite multi_day_same_time_fmap.
    apply Forall_fmap, Forall_true. intros st.
    apply Forall_fmap, Forall_true. intros d.
    unfold well_formed. simpl. lia. }
  split; [apply H|]. intros d. rewrite multi_times_single_day. apply H.
Qed.

(** X20.  When no day is given twice, two different blocks of an option
    made by [multi_day_same_time] do not overlap. *)
Theorem multi_day_same_time_no_conflict_inside (days : list string)
  (start_times : list Time.t) (duration : Time.t) (o : list ClassTime) :
  NoDup days →
  o ∈ multi_day_same_time days start_times duration →
  ∀ (i j : nat) t1 t2,
    i ≠ j → o !! i = Some t1 → o !! j = Some t2 → overlaps t1 t2 = false.
Proof.
  intros Hnd Ho i j t1 t2 Hij H1 H2.
  rewrite multi_day_same_time_fmap in Ho.
  apply list_elem_of_fmap in Ho as (st & -> & _).
  rewrite list_lookup_fmap in H1, H2.
  destruct (days !! i) as [d1|] eqn:Hd1; [|done].
  destruct (days !! j) as [d2|] eqn:Hd2; [|done].
  simpl in H1, H2. injection H1 as <-. injection H2 as <-.
  apply overlaps_other_day. simpl. intros ->.
  apply Hij. by eapply NoDup_lookup.
Qed.

Lemma multi_day_same_time_no_conflict_inside_witness :
  overlaps
    (mkClassTime Day.TUES (Time.make 11 0)
       (Time.add (Time.make 11 0) (Time.make 1 15)))
    (mkClassTime Day.THUR (Time.make 11 0)
       (Time.add (Time.make 11 0) (Time.make 1 15))) = false.
Proof.
  apply (multi_day_same_time_no_conflict_inside [Day.TUES; Day.THUR]
           [Time.make 11 0; Time.make 12 30] (Time.make 1 15)
           [mkClassTime Day.TUES (Time.make 11 0)
              (Time.add (Time.make 11 0) (Time.make 1 15));
            mkClassTime Day.THUR (Time.make 11 0)
              (Time.add (Time.make 11 0) (Time.make 1 15))])
    with (i := 0%nat) (j := 1%nat).
  - apply (bool_decide_unpack _). vm_compute. exact I.
  - left.
  - lia.
  - reflexivity.
  - reflexivity.
Defined.

(** X21.  Options made from start times that are all different are all
    different, provided there is a day: a request built this way lists
    no option twice. *)
Theorem multi_day_same_time_NoDup (days : list string)
  (start_times : list Time.t) (duration : Time.t) :
  days ≠ [] → NoDup start_times →
  NoDup (multi_day_same_time days start_times duration) ∧
  ∀ d, NoDup (multi_times d start_times duration).
Proof.
  assert (∀ ds, ds ≠ [] → NoDup start_times →
                NoDup (multi_day_same_time ds start_times duration)) as H.
  { intros [|d ds] Hne Hnd; [done|]. rewrite multi_day_same_time_fmap.
    apply NoDup_fmap_2_strong; [|done].
    intros st1 st2 _ _ Heq. simpl in Heq. by injection Heq. }
  intros Hne Hnd. split; [by apply H|].
  intros d. rewrite multi_times_single_day. by apply H.
Qed.

Lemma multi_day_same_time_NoDup_witness :
  NoDup (time_options cse_4502) ∧
  ∀ d, NoDup (multi_times d [Time.make 11 0; Time.make 12 30]
                (Time.make 1 15)).
Proof.
  apply multi_day_same_time_NoDup.
  - discriminate.
  - apply (bool_decide_unpack _). vm_compute. exact I.
Defined.

(** ** [print_schedule] *)

Section sort_by_key.
Context {A : Type} (key : A → Time.t).

Lemma insert_by_key_perm (x : A) (l : list A) :
  insert_by_key key x l ≡ₚ x :: l.
Proof.
  induction l as [|y l IH]; simpl; [done|].
  destruct (Time.lt (key y) (key x)); [|done].
  rewrite IH. apply Permutation_swap.
Qed.

Lemma sort_by_key_perm (l : list A) : sort_by_key key l ≡ₚ l.
Proof.
  induction l as [|x l IH]; simpl; [done|].
  by rewrite insert_by_key_perm, IH.
Qed.

Lemma insert_by_key_sorted (x : A) (l : list A) :
  StronglySorted (λ a b, Time.mins (key a) ≤ Time.mins (key b)) l →
  StronglySorted (λ a b, Time.mins (key a) ≤ Time.mins (key b))
    (insert_by_key key x l).
Proof.
  induction 1 as [|y l Hl IH Hy]; simpl.
  { repeat constructor. }
  unfold Time.lt. destruct (Z.ltb_spec (Time.mins (key y)) (Time.mins (key x))).
  - constructor; [done|]. rewrite insert_by_key_perm.
    constructor; [lia|done].
  - constructor; [by constructor|]. constructor; [done|].
    eapply Forall_impl; [exact Hy|]. simpl. intros z Hz. lia.
Qed.

Lemma sort_by_key_sorted (l : list A) :
  StronglySorted (λ a b, Time.mins (key a) ≤ Time.mins (key b))
    (sort_by_key key l).
Proof.
  induction l as [|x l IH]; simpl; [constructor|].
  by apply insert_by_key_sorted.
Qed.

Lemma insert_by_key_stable (k : Z) (x : A) (l : list A) :
  filter (λ a, Time.mins (key a) = k) (insert_by_key key x l)
  = filter (λ a, Time.mins (key a) = k) (x :: l).
Proof.
  induction l as [|y l IH]; simpl; [done|].
  unfold Time.lt.
  destruct (Z.ltb_spec (Time.mins (key y)) (Time.mins (key x))); [|done].
  rewrite filter_cons, IH, !filter_cons.
  repeat case_decide; try done; lia.
Qed.

Lemma sort_by_key_stable (k : Z) (l : list A) :
  filter (λ a, Time.mins (key a) = k) (sort_by_key key l)
  = filter (λ a, Time.mins (key a) = k) l.
Proof.
  induction l as [|x l IH]; simpl; [done|].
  by rewrite insert_by_key_stable, !filter_cons, IH.
Qed.

End sort_by_key.

Lemma elem_of_day_pairs (schedule : Schedule) (d : string) c t :
  (c, t) ∈ day_pairs schedule d ↔
  c ∈ schedule ∧ t ∈ times c ∧ day t = d.
Proof.
  unfold day_pairs. rewrite list_elem_of_bind. split.
  - intros (c' & (t' & Hin & Ht')%list_elem_of_bind & Hc').
    destruct (String.eqb_spec (day t') d) as [Hd|Hd]; [|by inversion Hin].
    apply list_elem_of_singleton in Hin as [= -> ->]. done.
  - intros (Hc & Ht & Hd). exists c. split; [|done].
    apply list_elem_of_bind. exists t. split; [|done].
    rewrite (proj2 (String.eqb_eq _ _) Hd). left.
Qed.

Lemma length_day_pairs (schedule : Schedule) (d : string) :
  length (day_pairs schedule d)
  = length (filter (λ t, day t = d) (schedule_blocks schedule)).
Proof.
  unfold day_pairs, schedule_blocks.
  induction schedule as [|c schedule IH]; [done|].
  csimpl. rewrite filter_app, !length_app, IH. f_equal.
  induction (times c) as [|t ts IHt]; [done|].
  csimpl. rewrite filter_cons, length_app, IHt.
  destruct (String.eqb_spec (day t) d); by case_decide.
Qed.

Lemma elem_of_classes_on (schedule : Schedule) (d : string) c t :
  (c, t) ∈ classes_on schedule d ↔
  c ∈ schedule ∧ t ∈ times c ∧ day t = d.
Proof.
  unfold classes_on. rewrite sort_by_key_perm. apply elem_of_day_pairs.
Qed.

Lemma length_classes_on (schedule : Schedule) (d : string) :
  length (classes_on schedule d)
  = length (filter (λ t, day t = d) (schedule_blocks schedule)).
Proof.
  unfold classes_on. rewrite sort_by_key_perm. apply length_day_pairs.
Qed.

(** X22.  The entries [print_schedule] lists for a day are the pairs of
    a class of the schedule and one of its blocks on that day, each as
    often as it occurs in the schedule. *)
Theorem classes_on_day (schedule : Schedule) (d : string) :
  (∀ c t, (c, t) ∈ classes_on schedule d ↔
          c ∈ schedule ∧ t ∈ times c ∧ day t = d) ∧
  classes_on schedule d ≡ₚ day_pairs schedule d ∧
  length (classes_on schedule d)
  = length (filter (λ t, day t = d) (schedule_blocks schedule)).
Proof.
  split_and!.
  - intros c t. apply elem_of_classes_on.
  - apply sort_by_key_perm.
  - apply length_classes_on.
Qed.

(** X23.  The entries of a day are listed by start time, earliest
    first; entries with equal start times keep the order they have in
    the schedule, classes in schedule order and the blocks of a class
    in their order. *)
Theorem classes_on_sorted_stable (schedule : Schedule) (d : string) :
  (∀ (i j : nat) x y,
     (i < j)%nat → classes_on schedule d !! i = Some x →
     classes_on schedule d !! j = Some y →
     Time.le (start_time (snd x)) (start_time (snd y)) = true) ∧
  ∀ k, filter (λ x, Time.mins (start_time (snd x)) = k)
         (classes_on schedule d)
       = filter (λ x, Time.mins (start_time (snd x)) = k)
           (day_pairs schedule d).
Proof.
  unfold classes_on. split.
  - intros i j x y Hij Hi Hj. apply Time_le_spec.
    pose proof (sort_by_key_sorted (λ x, start_time (snd x))
                  (day_pairs schedule d)) as Hsorted.
    revert i j Hij Hi Hj.
    induction Hsorted as [|z l _ IH Hz]; intros i j Hij Hi Hj.
    { by rewrite lookup_nil in Hi. }
    destruct j as [|j]; [lia|]. simpl in Hj. destruct i as [|i].
    + injection Hi as ->. apply list_elem_of_lookup_2 in Hj.
      by apply (proj1 (Forall_forall _ _) Hz).
    + simpl in Hi. apply (IH i j); [lia|done..].
  - intros k. apply (sort_by_key_stable (λ x, start_time (snd x))).
Qed.

Lemma length_filter_weekdays (l : list ClassTime) :
  (length (filter (λ t, day t = Day.MON) l)
   + length (filter (λ t, day t = Day.TUES) l)
   + length (filter (λ t, day t = Day.WED) l)
   + length (filter (λ t, day t = Day.THUR) l)
   + length (filter (λ t, day t = Day.FRI) l))%nat
  = length (filter (λ t, day t ∈ Day.DAYS) l).
Proof.
  induction l as [|t l IH]; [done|]. rewrite !filter_cons.
  unfold Day.DAYS, Day.MON, Day.TUES, Day.WED, Day.THUR, Day.FRI in *.
  destruct (decide (day t ∈ ["Mon"; "Tues"; "Wed"; "Thur"; "Fri"]))
    as [Hin|Hout].
  - simpl. rewrite <- IH.
    repeat (apply elem_of_cons in Hin as [->|Hin];
            [repeat case_decide; try done; simpl; lia|]).
    by inversion Hin.
  - rewrite <- IH.
    repeat (case_decide as Hd;
            [exfalso; apply Hout; rewrite Hd; by repeat constructor
            |clear Hd]).
    done.
Qed.

(** X24.  [print_schedule] goes through Mon, Tues, Wed, Thur, Fri in
    this order.  For each day it writes the lines of the entries listed
    for that day, in their order, and then one empty line.  A day has
    one line for every occurrence of a block on that day in the
    schedule, a block that occurs twice being written twice; a block on
    any other day is left out.  For an empty schedule the output is five
    empty lines. *)
Theorem print_schedule_lines (schedule : Schedule) :
  print_schedule schedule
  = ((λ x, print_line (fst x) (snd x)) <$> classes_on schedule "Mon")
      ++ [""]
      ++ ((λ x, print_line (fst x) (snd x)) <$> classes_on schedule "Tues")
      ++ [""]
      ++ ((λ x, print_line (fst x) (snd x)) <$> classes_on schedule "Wed")
      ++ [""]
      ++ ((λ x, print_line (fst x) (snd x)) <$> classes_on schedule "Thur")
      ++ [""]
      ++ ((λ x, print_line (fst x) (snd x)) <$> classes_on schedule "Fri")
      ++ [""] ∧
  (∀ d, length ((λ x, print_line (fst x) (snd x)) <$> classes_on schedule d)
        = length (filter (λ t, day t = d) (schedule_blocks schedule))) ∧
  length (print_schedule schedule)
  = (5 + length (filter (λ t, day t ∈ Day.DAYS)
                   (schedule_blocks schedule)))%nat ∧
  (∀ c t, c ∈ schedule → t ∈ times c → day t ∈ Day.DAYS →
          print_line c t ∈ print_schedule schedule) ∧
  (∀ line, line ∈ print_schedule schedule →
     line = "" ∨
     ∃ c t, line = print_line c t ∧ c ∈ schedule ∧ t ∈ times c ∧
            day t ∈ Day.DAYS) ∧
  print_schedule [] = ["" ; ""; ""; ""; ""].
Proof.
  split_and!.
  - unfold print_schedule, Day.DAYS, Day.MON, Day.TUES, Day.WED, Day.THUR,
      Day.FRI.
    csimpl. rewrite app_nil_r, <- !app_assoc. reflexivity.
  - intros d. rewrite length_fmap. apply length_classes_on.
  - rewrite <- length_filter_weekdays. unfold print_schedule, Day.DAYS.
    csimpl. rewrite !length_app, !length_fmap. simpl.
    rewrite !length_classes_on. lia.
  - intros c t Hc Ht Hd. unfold print_schedule.
    apply list_elem_of_bind. exists (day t). split; [|done].
    apply elem_of_app. left.
    apply (list_elem_of_fmap_2' _ _ (c, t)); [|done].
    by apply elem_of_classes_on.
  - intros line (d & Hline & Hd)%list_elem_of_bind.
    apply elem_of_app in Hline as [Hline|Hline].
    + right. apply list_elem_of_fmap in Hline as ([c t] & -> & Hct).
      apply elem_of_classes_on in Hct as (Hc & Ht & <-). by exists c, t.
    + left. by apply list_elem_of_singleton in Hline.
  - reflexivity.
Qed.

(** ** Further properties on the heap *)

Lemma get_fitting_classes_new_list fuel schedule new_class h l h' :
  Heap.get_fitting_classes fuel schedule new_class h = Some (l, h') →
  h !! l = None.
Proof.
  unfold Heap.get_fitting_classes, Heap.list_new.
  intros (lf & h1 & (-> & Hlf & ->)%alloc_Some & Hrest)%M_bind_Some.
  apply M_bind_Some in Hrest as (lo & h2 & _ & Hrest).
  apply M_bind_Some in Hrest as ([] & h3 & _ & Hret).
  by injection Hret as <- _.
Qed.

(** X25.  [overlaps] and [new_class_time_fits] write nothing: whenever
    they return, the heap is the one they were called on.
    [get_fitting_classes] leaves every object there was unchanged and
    returns a list that did not exist before the call. *)
Theorem helpers_leave_heap_unchanged :
  (∀ self other h r h',
     Heap.overlaps self other h = Some (r, h') → h' = h) ∧
  (∀ fuel schedule new_times h r h',
     Heap.new_class_time_fits fuel schedule new_times h = Some (r, h') →
     h' = h) ∧
  (∀ fuel schedule new_class h l h',
     Heap.get_fitting_classes fuel schedule new_class h = Some (l, h') →
     (∀ a o, h !! a = Some o → h' !! a = Some o) ∧ h !! l = None).
Proof.
  split_and!.
  - intros self other h r h'. apply readonly_overlaps.
  - intros fuel schedule new_times h r h'.
    apply readonly_new_class_time_fits.
  - intros fuel schedule new_class h l h' Hrun. split.
    + intros a o Ha. eapply lookup_weaken; [exact Ha|].
      by eapply (preserves_get_fitting_classes h fuel schedule new_class h).
    + by eapply get_fitting_classes_new_list.
Qed.

(** A loop keeps what its body keeps, for a property of the local
    variables and the heap; the body runs on items of the list as the
    heap has it at that time. *)
Lemma for_in_invariant {St : Type} (I : St → Heap.heap → Prop)
  fuel l i (s : St) (body : St → Heap.loc → Heap.M St) h s' h' :
  (∀ s x h s' h',
     I s h → (∃ xs, h !! l = Some (Heap.OList xs) ∧ x ∈ xs) →
     body s x h = Some (s', h') → I s' h') →
  I s h → Heap.for_in fuel l i s body h = Some (s', h') → I s' h'.
Proof.
  intros Hbody. revert i s h.
  induction fuel as [|fuel IH]; intros i s h HI; [done|]. simpl.
  intros (xs & h1 & [Hl ->]%list_items_Some & Hrest)%M_bind_Some.
  destruct (xs !! i) as [x|] eqn:Hi.
  - apply M_bind_Some in Hrest as (s1 & h2 & Hx & Hrest).
    eapply IH; [|exact Hrest]. eapply Hbody; [exact HI| |exact Hx].
    exists xs. split; [done|]. by eapply list_elem_of_lookup_2.
  - by injection Hrest as <- <-.
Qed.

(** X26.  The [Class] objects [get_fitting_classes] makes carry the
    name of the request and refer to an option list of the request
    itself: the list is shared with the request, not copied. *)
Theorem get_fitting_classes_shares_options
  fuel schedule new_class h n options items l h' :
  h !! new_class = Some (Heap.OUnrealizedClass n options) →
  h !! options = Some (Heap.OList items) →
  Heap.get_fitting_classes fuel schedule new_class h = Some (l, h') →
  h' !! options = Some (Heap.OList items) ∧
  ∃ classes,
    h' !! l = Some (Heap.OList classes) ∧
    Forall (λ c, ∃ t, h' !! c = Some (Heap.OClass n t) ∧ t ∈ items) classes.
Proof.
  intros Hc Ho Hrun.
  assert (h ⊆ h') as Hsub.
  { by eapply (preserves_get_fitting_classes h fuel schedule new_class h). }
  split; [by eapply lookup_weaken|].
  revert Hrun. unfold Heap.get_fitting_classes, Heap.list_new.
  intros (lf & h1 & (-> & Hlf & ->)%alloc_Some & Hrest)%M_bind_Some.
  set (lf := fresh (dom h)) in *.
  set (h1 := <[lf := Heap.OList []]> h) in *.
  assert (h ⊆ h1) as Hsub1 by (by apply insert_subseteq).
  apply M_bind_Some in Hrest as (lo & h2 & Hlo & Hrest).
  rewrite (get_time_options_run h1 new_class n options) in Hlo
    by (by eapply lookup_weaken).
  injection Hlo as <- <-.
  apply M_bind_Some in Hrest as ([] & h3 & Hloop & Hret).
  injection Hret as <- <-.
  set (I := λ (_ : ()) (hi : Heap.heap),
         h ⊆ hi ∧
         ∃ classes,
           hi !! lf = Some (Heap.OList classes) ∧
           Forall (λ c, c ≠ lf ∧
                        ∃ t, hi !! c = Some (Heap.OClass n t) ∧ t ∈ items)
             classes).
  assert (I () h3) as (_ & classes & Hl & Hall).
  { eapply (for_in_invariant I); [|split; [exact Hsub1|]|exact Hloop].
    2:{ exists []. split; [apply lookup_insert_eq|constructor]. }
    clear Hloop. intros [] x hi [] hi' (Hsubi & cls & Hcls & Hall).
    intros (xs & Hxs & Hx) Hbody.
    assert (xs = items) as ->.
    { pose proof (lookup_weaken _ _ _ _ Ho Hsubi) as Ho'. congruence. }
    apply M_bind_Some in Hbody as (b & hi1 & Hfits & Hbody).
    apply readonly_new_class_time_fits in Hfits as ->.
    destruct b.
    2:{ injection Hbody as <-. split; [done|]. by exists cls. }
    apply M_bind_Some in Hbody as (n' & hi1 & Hname & Hbody).
    rewrite (get_name_run hi new_class n options) in Hname
      by (by eapply lookup_weaken).
    injection Hname as <- <-.
    apply M_bind_Some in Hbody as (c & hi1 & (-> & Hfresh & ->)%alloc_Some & Hbody).
    set (c := fresh (dom hi)) in *.
    assert (c ≠ lf) as Hne by congruence.
    assert (<[c := Heap.OClass n x]> hi !! lf = Some (Heap.OList cls))
      as Hcls1 by (by rewrite lookup_insert_ne).
    rewrite (list_append_run _ _ cls _ Hcls1) in Hbody.
    injection Hbody as <-. split.
    - apply insert_subseteq_r; [done|].
      apply insert_subseteq_r; [by eapply lookup_weaken_None|done].
    - exists (cls ++ [c]). split; [apply lookup_insert_eq|].
      apply Forall_app. split.
      + eapply Forall_impl; [exact Hall|]. intros y (Hy & t & Hyt & Ht).
        split; [done|]. exists t. split; [|done].
        rewrite lookup_insert_ne by done.
        rewrite lookup_insert_ne by congruence. done.
      + constructor; [|constructor]. split; [done|]. exists x.
        split; [|done]. rewrite lookup_insert_ne by done.
        apply lookup_insert_eq. }
  exists classes. split; [done|].
  eapply Forall_impl; [exact Hall|]. intros c (_ & t & Hct & Ht). eauto.
Qed.

Lemma get_fitting_classes_shares_options_witness :
  ∃ l h',
    Heap.get_fitting_classes 3 15 12 touching_heap_empty_schedule
    = Some (l, h') ∧
    h' !! 10%positive = Some (Heap.OList [7%positive; 8%positive]) ∧
    ∃ classes,
      h' !! l = Some (Heap.OList classes) ∧
      Forall (λ c, ∃ t, h' !! c = Some (Heap.OClass "R1" t) ∧
                        t ∈ [7%positive; 8%positive]) classes.
Proof.
  destruct (Heap.get_fitting_classes 3 15 12 touching_heap_empty_schedule)
    as [[l h']|] eqn:Hrun; [|vm_compute in Hrun; discriminate].
  exists l, h'. split; [done|].
  apply (get_fitting_classes_shares_options 3 15 12
           touching_heap_empty_schedule "R1" 10 [7%positive; 8%positive]);
    [vm_compute; reflexivity..|exact Hrun].
Defined.

(** X27.  The list [build_schedules] returns and the schedules in it
    are lists made by the call: none of them is an object of the heap
    the call started from, an empty request list included. *)
Theorem build_schedules_returns_new_lists fuel class_options h schedules h' :
  Heap.build_schedules fuel class_options h = Some (schedules, h') →
  h !! schedules = None ∧
  ∃ items, h' !! schedules = Some (Heap.OList items) ∧
           Forall (λ s, h !! s = None) items.
Proof.
  unfold Heap.build_schedules, Heap.list_new.
  intros (e & h1 & (-> & He & ->)%alloc_Some & Hrest)%M_bind_Some.
  set (e := fresh (dom h)) in *.
  set (h1 := <[e := Heap.OList []]> h) in *.
  apply M_bind_Some in Hrest as (s0 & h2 & (-> & Hs0 & ->)%alloc_Some & Hloop).
  set (s0 := fresh (dom h1)) in *.
  set (h2 := <[s0 := Heap.OList [e]]> h1) in *.
  assert (h ⊆ h1) as Hsub1 by (by apply insert_subseteq).
  assert (h ⊆ h2) as Hsub2 by (etrans; [done|by apply insert_subseteq]).
  set (new := λ (l : Heap.loc) (hi : Heap.heap),
         h ⊆ hi ∧ h !! l = None ∧
         ∃ items, hi !! l = Some (Heap.OList items) ∧
                  Forall (λ s, h !! s = None) items).
  assert (new schedules h') as (_ & Hnew & Hitems); [|done].
  eapply (for_in_invariant new); [|..|exact Hloop].
  2:{ split_and!; [done|by eapply lookup_weaken_None|].
      exists [e]. split; [apply lookup_insert_eq|by repeat constructor]. }
  clear Hloop. intros s c hk s' hk' (Hsubk & _) _ Hbody.
  apply M_bind_Some in Hbody as (ns & hk1 & (-> & Hns & ->)%alloc_Some & Hbody).
  set (ns := fresh (dom hk)) in *.
  assert (h !! ns = None) as Hns0 by (by eapply lookup_weaken_None).
  apply M_bind_Some in Hbody as ([] & hk2 & Hmid & Hret).
  injection Hret as <- <-.
  eapply (for_in_invariant (λ _, new ns)); [|..|exact Hmid].
  2:{ split_and!; [by apply insert_subseteq_r|done|].
      exists []. split; [apply lookup_insert_eq|constructor]. }
  clear Hmid. intros [] schedule hj [] hj' Hj _ Hbody.
  apply M_bind_Some in Hbody as (lf & hj1 & Hfit & Hinner).
  assert (new ns hj1) as Hj1.
  { destruct Hj as (Hsubj & _ & its & Hits & Hall).
    assert (hj ⊆ hj1) as Hgrow.
    { by eapply (preserves_get_fitting_classes hj fuel schedule c hj). }
    split_and!; [by etrans|done|].
    exists its. split; [by eapply lookup_weaken|done]. }
  eapply (for_in_invariant (λ _, new ns)); [|exact Hj1|exact Hinner].
  clear Hinner Hfit Hj Hj1. intros [] fc hm [] hm' (Hsubm & _ & its & Hits & Hall) _.
  unfold Heap.list_copy, Heap.list_add, Heap.list_new.
  intros (cp & hm1 & Hcopy & Hbody)%M_bind_Some.
  apply M_bind_Some in Hcopy as (xs & hm0 & [_ ->]%list_items_Some & Hcopy).
  apply alloc_Some in Hcopy as (-> & Hcp & ->).
  apply M_bind_Some in Hbody as (sg & hm2 & (-> & Hsg & ->)%alloc_Some & Hbody).
  apply M_bind_Some in Hbody as (sum & hm3 & Hadd & Happ).
  apply M_bind_Some in Hadd as (ys & hm4 & [_ ->]%list_items_Some & Hadd).
  apply M_bind_Some in Hadd as (zs & hm4 & [_ ->]%list_items_Some & Hadd).
  apply alloc_Some in Hadd as (-> & Hsum & ->).
  set (cp := fresh (dom hm)) in *.
  set (hm1 := <[cp := Heap.OList xs]> hm) in *.
  set (sg := fresh (dom hm1)) in *.
  set (hm2 := <[sg := Heap.OList [fc]]> hm1) in *.
  set (sum := fresh (dom hm2)) in *.
  assert (hm ⊆ hm2) as Hgrow.
  { etrans; [by apply (insert_subseteq hm cp)|]. by apply insert_subseteq. }
  assert (hm2 !! ns = Some (Heap.OList its)) as Hits2
    by (by eapply lookup_weaken).
  assert (ns ≠ sum) as Hne by congruence.
  assert (<[sum := Heap.OList (ys ++ zs)]> hm2 !! ns
          = Some (Heap.OList its)) as Hits3 by (by rewrite lookup_insert_ne).
  rewrite (list_append_run _ _ its _ Hits3) in Happ.
  injection Happ as <-. split_and!.
  - apply insert_subseteq_r; [done|].
    apply insert_subseteq_r; [|by etrans].
    eapply lookup_weaken_None; [exact Hsum|by etrans].
  - done.
  - exists (its ++ [sum]). split; [apply lookup_insert_eq|].
    apply Forall_app. split; [done|]. constructor; [|constructor].
    eapply lookup_weaken_None; [exact Hsum|by etrans].
Qed.

Lemma build_schedules_returns_new_lists_witness :
  ∃ schedules h',
    Heap.build_schedules 3 14 touching_heap = Some (schedules, h') ∧
    touching_heap !! schedules = None ∧
    ∃ items, h' !! schedules = Some (Heap.OList items) ∧
             Forall (λ s, touching_heap !! s = None) items.
Proof.
  destruct (Heap.build_schedules 3 14 touching_heap)
    as [[schedules h']|] eqn:Hrun; [|vm_compute in Hrun; discriminate].
  exists schedules, h'. split; [done|].
  by apply (build_schedules_returns_new_lists 3 14).
Defined.

(** ** The sample requests *)

(** The text [print(c)] shows for the first request of the sample
    program, and the number of schedules for its first three requests:
    their Tuesday and Thursday blocks leave gaps of fifteen minutes, so
    all [2 * 2 * 6] combinations are kept. *)
Example UnrealizedClass_str_cse_4502 :
  UnrealizedClass_str cse_4502
  = "CSE 4502: Big Data Analytics" +:+ newline
    +:+ "Tues 11:00-12:15, Thur 11:00-12:15" +:+ newline
    +:+ "Tues 12:30-13:45, Thur 12:30-13:45" +:+ newline.
Proof. vm_compute. reflexivity. Qed.

Example build_schedules_sample_requests :
  length (build_schedules [cse_4502; cse_4705; cse_3000]) = 24%nat.
Proof. vm_compute. reflexivity. Qed.
